(** * Booking service of the hotel back end

    A shallow embedding of [backend/services/bookingService.js]: the
    availability check, the price computation and the operations that create,
    read, cancel and re-label bookings, together with the properties the
    specification states about them.

    The service talks to two Sequelize models, [Room] and [Booking], through
    [findByPk], [findOne], [findAll], [create] and [update].  The tables are finite maps
    from primary key to row; an operation that writes returns the new
    database, and an operation that throws returns the thrown error. *)

From Stdlib Require Import ZArith QArith Qround Qabs Qpower Qcanon Lqa.
From stdpp Require Import gmap strings list fin_maps sorting.

Local Open Scope Z_scope.
Set Warnings "-register-all".

(** ** JavaScript numbers *)

(** A JavaScript number is an IEEE 754 binary64 value: a finite double, given
    here by its exact rational value, an infinity, or NaN.  The two zeros are
    not told apart: no operation of the service can see the difference. *)
Inductive number : Type :=
  | Finite (q : Q)
  | Infinity (negative : bool)
  | NaN.

Global Instance Q_eq_dec : EqDecision Q.
Proof. solve_decision. Defined.

Global Instance number_eq_dec : EqDecision number.
Proof. solve_decision. Defined.

(** The integer nearest to [x], the even one of the two when [x] is half way
    between them. *)
Definition roundHalfEven (x : Q) : Z :=
  let f := Qfloor x in
  match Qcompare (x - inject_Z f) (1 # 2) with
  | Lt => f
  | Gt => f + 1
  | Eq => if Z.even f then f else f + 1
  end.

Definition pow2 (e : Z) : Q := Qpower 2 e.

(** For [x > 0], the integer [k] with [2^k <= x < 2^(k+1)]. *)
Definition ilog2 (x : Q) : Z :=
  let k := Z.log2 (Qnum x) - Z.log2 (Z.pos (Qden x)) in
  if Qle_bool (pow2 k) x then k else k - 1.

(** The exponent of the last of the 53 bits of the double nearest to [x]; it
    is never below -1074, the exponent of the subnormal doubles. *)
Definition ulpExponent (x : Q) : Z := Z.max (ilog2 (Qabs x) - 52) (-1074).

(** [x] rounded to a multiple of [2^e], to nearest and ties to even. *)
Definition roundAt (e : Z) (x : Q) : Q :=
  (inject_Z (roundHalfEven (x / pow2 e)) * pow2 e)%Q.

(** [x] rounded to 53 significant bits: the value of the double nearest to
    [x], as long as that does not overflow. *)
Definition roundQ (x : Q) : Q := roundAt (ulpExponent x) x.

(** The double that an operation with exact result [x] returns: the nearest
    double, or an infinity when the rounded value reaches [2^1024]. *)
Definition round (x : Q) : number :=
  let v := roundQ x in
  if Qle_bool (pow2 1024) (Qabs v) then Infinity (negb (Qle_bool 0 v))
  else Finite (Qred v).

(** The number with integer value [z] (a double when [|z| <= 2^53]). *)
Definition num (z : Z) : number := Finite (inject_Z z).

(** [x * y]. *)
Definition number_mul (x y : number) : number :=
  match x, y with
  | NaN, _ | _, NaN => NaN
  | Finite a, Finite b => round (a * b)
  | Infinity s, Finite a | Finite a, Infinity s =>
      match Qcompare a 0 with
      | Eq => NaN
      | Lt => Infinity (negb s)
      | Gt => Infinity s
      end
  | Infinity s, Infinity s' => Infinity (xorb s s')
  end.

(** [x <= y]: false when either side is NaN. *)
Definition number_le (x y : number) : Prop :=
  match x, y with
  | NaN, _ | _, NaN => False
  | Infinity true, _ => True
  | _, Infinity false => True
  | Finite a, Finite b => (a <= b)%Q
  | _, _ => False
  end.

(** [Number.isSafeInteger]: an integer that the doubles represent exactly
    together with its two neighbours. *)
Definition safeInteger (z : Z) : Prop := Z.abs z < 2 ^ 53.

(** ** Values, rows and tables *)

(** The JavaScript values that occur in a request body or in a [where] clause:
    numbers, strings and [Date] objects (milliseconds since the epoch).  A
    number that serves as a key is an integer, [VNum]; an amount is a number
    in general, [VNumber]. *)
Inductive value : Type :=
  | VNum (n : Z)
  | VNumber (x : number)
  | VStr (s : string)
  | VDate (ms : Z).

Global Instance value_eq_dec : EqDecision value.
Proof. solve_decision. Defined.

(** A row of the [Rooms] table, as far as the service reads it. *)
Record Room : Type := mkRoom { price : number }.

(** A row of the [Bookings] table: the attributes the service reads or writes.
    The primary key [id] is the key of the row in the table. *)
Record Booking : Type := mkBooking {
  RoomId : Z;
  UserId : Z;
  checkIn : Z;
  checkOut : Z;
  totalPrice : number;
  status : string
}.

Global Instance Booking_eq_dec : EqDecision Booking.
Proof. solve_decision. Defined.

Record DB : Type := mkDB {
  rooms : gmap Z Room;
  bookings : gmap Z Booking
}.

(** ** Errors *)

(** One constructor per [throw new Error(...)] of the service. *)
Inductive error : Type :=
  | RoomNotFound            (* 'Номер не найден' *)
  | RoomNotAvailable        (* 'Номер не доступен на указанные даты' *)
  | CheckOutNotAfterCheckIn (* 'Дата выезда должна быть позже даты заезда' *)
  | BookingNotFound         (* 'Бронирование не найдено' *)
  | AccessDenied            (* 'Доступ запрещен' *)
  | CancelAfterCheckIn      (* 'Нельзя отменить бронирование после даты заезда' *)
  | InvalidStatus           (* 'Недопустимый статус' *)
  | ModelRejected.          (* the model refuses the attributes given to create *)

Global Instance error_eq_dec : EqDecision error.
Proof. solve_decision. Defined.

(** The error kinds of the specification, and the kind of each thrown error. *)
Inductive errorKind : Type := NotFound | Validation | Conflict | Forbidden.

Global Instance errorKind_eq_dec : EqDecision errorKind.
Proof. solve_decision. Defined.

Definition kind (e : error) : errorKind :=
  match e with
  | RoomNotFound | BookingNotFound => NotFound
  | RoomNotAvailable | CancelAfterCheckIn => Conflict
  | CheckOutNotAfterCheckIn | InvalidStatus | ModelRejected => Validation
  | AccessDenied => Forbidden
  end.

(** A call either returns or throws. *)
Inductive result (A : Type) : Type :=
  | Return (a : A)
  | Throw (e : error).
Arguments Return {A} a.
Arguments Throw {A} e.

(** Sequencing of calls, [x ← call; rest]: a thrown error ends the sequence. *)
Global Instance result_ret : MRet result := λ A a, Return a.
Global Instance result_bind : MBind result := λ A B k r,
  match r with
  | Return a => k a
  | Throw e => Throw e
  end.

(** [failsWith k r]: the call threw an error of kind [k]. *)
Definition failsWith {A : Type} (k : errorKind) (r : result A) : Prop :=
  ∃ e, r = Throw e ∧ kind e = k.

(** ** The query language of [Booking.findOne] *)

Inductive attr : Type := ARoomId | AUserId | ACheckIn | ACheckOut | AStatus.

Definition attrOf (a : attr) (b : Booking) : value :=
  match a with
  | ARoomId => VNum (RoomId b)
  | AUserId => VNum (UserId b)
  | ACheckIn => VDate (checkIn b)
  | ACheckOut => VDate (checkOut b)
  | AStatus => VStr (status b)
  end.

(** Ordering of a column value and a bound, as the database compares them: two
    numbers or two dates.  The service bounds date columns only; no other
    pair of values is ordered here. *)
Definition value_leb (v w : value) : bool :=
  match v, w with
  | VNum a, VNum b => a <=? b
  | VDate a, VDate b => a <=? b
  | _, _ => false
  end.

(** A [where] object: a column condition, or [Op.or] / [Op.and] of clauses; the
    keys of one object are joined by AND, which is [WAnd]. *)
Inductive whereClause : Type :=
  | WEq (a : attr) (v : value)
  | WIn (a : attr) (vs : list value)              (* [Op.in] *)
  | WBetween (a : attr) (lo hi : value)           (* [Op.between] *)
  | WLte (a : attr) (v : value)                   (* [Op.lte] *)
  | WGte (a : attr) (v : value)                   (* [Op.gte] *)
  | WOr (ws : list whereClause)                         (* [Op.or] *)
  | WAnd (ws : list whereClause).                       (* [Op.and] *)

Fixpoint matches (w : whereClause) (b : Booking) : bool :=
  match w with
  | WEq a v => bool_decide (attrOf a b = v)
  | WIn a vs => bool_decide (attrOf a b ∈ vs)
  | WBetween a lo hi => value_leb lo (attrOf a b) && value_leb (attrOf a b) hi
  | WLte a v => value_leb (attrOf a b) v
  | WGte a v => value_leb v (attrOf a b)
  | WOr ws => existsb (λ w', matches w' b) ws
  | WAnd ws => forallb (λ w', matches w' b) ws
  end.

(** ** The model layer *)

(** [Room.findByPk] and [Booking.findByPk]. *)
Definition Room_findByPk (db : DB) (id : Z) : option Room := rooms db !! id.
Definition Booking_findByPk (db : DB) (id : Z) : option Booking := bookings db !! id.

(** [Booking.findOne({ where })]: some row that matches, or [None]. *)
Definition Booking_findOne (db : DB) (w : whereClause) : option Booking :=
  List.find (matches w) (map_to_list (bookings db)).*2.

(** The largest primary key in use (0 for an empty table); the key column is
    auto-incremented, so the next row gets the key after it. *)
Definition lastId (m : gmap Z Booking) : Z := foldr Z.max 0 (map_to_list m).*1.

(** Modelled from the spec: the [Booking] model and its [create], whose
    definition (backend/models) is not among the sources.  The specification
    gives a booking a room reference, an owner, the two dates, a total price
    and a status; [create] reads them from the attributes of the object it is
    given, under the names the service uses ([roomId], [checkIn], [checkOut]
    of the request, [UserId], [totalPrice], [status] of the object literal),
    refuses an object in which one of them is missing or of the wrong sort,
    and stores the row under a fresh primary key.  The room reference, which
    the queries of the service call [RoomId], is the [roomId] of the request.
    It returns the key and the row. *)
Definition Booking_create (db : DB) (obj : gmap string value)
  : result (Z * Booking * DB) :=
  match obj !! "roomId", obj !! "UserId", obj !! "checkIn",
        obj !! "checkOut", obj !! "totalPrice", obj !! "status" with
  | Some (VNum r), Some (VNum u), Some (VDate ci),
    Some (VDate co), Some (VNumber p), Some (VStr s) =>
      let id := lastId (bookings db) + 1 in
      let b := mkBooking r u ci co p s in
      Return (id, b, mkDB (rooms db) (<[id := b]> (bookings db)))
  | _, _, _, _, _, _ => Throw ModelRejected
  end.

(** [booking.update({ status })] on the instance with primary key [id]: the row
    keeps every other attribute. *)
Definition setStatus (s : string) (b : Booking) : Booking :=
  mkBooking (RoomId b) (UserId b) (checkIn b) (checkOut b) (totalPrice b) s.

Definition Booking_update (db : DB) (id : Z) (b : Booking) (s : string)
  : Booking * DB :=
  let b' := setStatus s b in
  (b', mkDB (rooms db) (<[id := b']> (bookings db))).

(** ** The request body *)

(** [bookingData]: the three properties the service reads, with the sorts its
    documentation gives them, and whatever other properties the object
    carries. *)
Module bookingData.

Record t : Type := mk {
  roomId : Z;
  checkIn : Z;
  checkOut : Z;
  others : gmap string value
}.

(** The own properties of the object, as the spread [...bookingData] copies
    them. *)
Definition properties (d : t) : gmap string value :=
  <["roomId" := VNum (roomId d)]>
    (<["checkIn" := VDate (checkIn d)]>
       (<["checkOut" := VDate (checkOut d)]> (others d))).

End bookingData.

(** ** The service *)

(** The service wraps each body in [try { ... } catch (error) { logger.error(...);
    throw error; }]: the error is logged and thrown again unchanged, so the
    result of the call is the result of the body. *)

Definition msPerDay : positive := (1000 * 60 * 60 * 24)%positive.

(** [calculateTotalPrice]: [Math.ceil((checkOut - checkIn) / (1000*60*60*24))]
    times the nightly price, in double arithmetic.  The two dates enter by
    their time values, integers of milliseconds of at most 8.64e15 in absolute
    value and so doubles as they are; their difference and its quotient by
    the day are finite doubles, each the rounding of the exact result, and
    [Math.ceil] of a double is exact.  The product with the price is rounded
    once more and is where an infinite or NaN price, or an overflow, shows. *)
Definition calculateTotalPrice (pricePerNight : number) (checkIn checkOut : Z)
  : number :=
  let difference := roundQ (inject_Z (checkOut - checkIn)) in
  let daysCount :=
    Qceiling (roundQ (difference / inject_Z (Z.pos msPerDay))) in
  number_mul pricePerNight (num daysCount).

(** The [where] object of the availability query. *)
Definition conflictQuery (roomId checkInDate checkOutDate : Z) : whereClause :=
  WAnd [
    WEq ARoomId (VNum roomId);
    WIn AStatus [VStr "pending"; VStr "confirmed"];
    WOr [
      WBetween ACheckIn (VDate checkInDate) (VDate checkOutDate);
      WBetween ACheckOut (VDate checkInDate) (VDate checkOutDate);
      WAnd [ WLte ACheckIn (VDate checkInDate);
             WGte ACheckOut (VDate checkOutDate) ]
    ]
  ].

(** [checkRoomAvailability]: [new Date] of a date is that date; the answer is
    [!conflictingBookings]. *)
Definition checkRoomAvailability (db : DB) (roomId checkIn checkOut : Z)
  : result bool :=
  let checkInDate := checkIn in
  let checkOutDate := checkOut in
  if checkInDate >=? checkOutDate then Throw CheckOutNotAfterCheckIn
  else
    let conflictingBookings :=
      Booking_findOne db (conflictQuery roomId checkInDate checkOutDate) in
    Return (negb (bool_decide (is_Some conflictingBookings))).

(** [createBooking]: room lookup, availability check, price, and
    [Booking.create({ ...bookingData, UserId: userId, totalPrice,
    status: 'pending' })], the later keys of the literal replacing the spread
    ones. *)
Definition createBooking (db : DB) (data : bookingData.t) (userId : Z)
  : result (Z * Booking * DB) :=
  room ← match Room_findByPk db (bookingData.roomId data) with
         | None => Throw RoomNotFound
         | Some room => Return room
         end;
  isAvailable ← checkRoomAvailability db (bookingData.roomId data)
                  (bookingData.checkIn data) (bookingData.checkOut data);
  if negb isAvailable then Throw RoomNotAvailable
  else
    let totalPrice := calculateTotalPrice (price room)
                        (bookingData.checkIn data) (bookingData.checkOut data) in
    Booking_create db
      (<["status" := VStr "pending"]>
         (<["totalPrice" := VNumber totalPrice]>
            (<["UserId" := VNum userId]> (bookingData.properties data)))).

(** The access test shared by [getBookingById] and [cancelBooking]:
    [booking.UserId !== userId && userRole !== 'admin' && userRole !== 'manager']. *)
Definition accessDenied (b : Booking) (userId : Z) (userRole : string) : bool :=
  negb (bool_decide (UserId b = userId))
  && negb (bool_decide (userRole = "admin"))
  && negb (bool_decide (userRole = "manager")).

(** [getBookingById]; the joined room and owner are not part of the row. *)
Definition getBookingById (db : DB) (id userId : Z) (userRole : string)
  : result Booking :=
  match Booking_findByPk db id with
  | None => Throw BookingNotFound
  | Some booking =>
      if accessDenied booking userId userRole then Throw AccessDenied
      else Return booking
  end.

(** [cancelBooking]; [now] is the value of [new Date()] read by the call. *)
Definition cancelBooking (now : Z) (db : DB) (id userId : Z) (userRole : string)
  : result (Booking * DB) :=
  match Booking_findByPk db id with
  | None => Throw BookingNotFound
  | Some booking =>
      if accessDenied booking userId userRole then Throw AccessDenied
      else if now >? checkIn booking then Throw CancelAfterCheckIn
      else Return (Booking_update db id booking "canceled")
  end.

Definition allowedStatuses : list string :=
  ["pending"; "confirmed"; "canceled"; "completed"].

(** [updateBookingStatus]: lookup, membership test, write. *)
Definition updateBookingStatus (db : DB) (id : Z) (status : string)
  : result (Booking * DB) :=
  match Booking_findByPk db id with
  | None => Throw BookingNotFound
  | Some booking =>
      if negb (bool_decide (status ∈ allowedStatuses)) then Throw InvalidStatus
      else Return (Booking_update db id booking status)
  end.

(** ** Vocabulary of the specification *)

(** An active booking: status pending or confirmed. *)
Definition isActive (b : Booking) : Prop :=
  status b = "pending" ∨ status b = "confirmed".

Global Instance isActive_dec b : Decision (isActive b).
Proof. unfold isActive. apply _. Defined.

(** The three conflict clauses of the availability check, for an existing
    booking [b] and a requested stay from [ci] to [co]. *)
Definition startsWithin (b : Booking) (ci co : Z) : Prop :=
  ci ≤ checkIn b ∧ checkIn b ≤ co.
Definition endsWithin (b : Booking) (ci co : Z) : Prop :=
  ci ≤ checkOut b ∧ checkOut b ≤ co.
Definition contains (b : Booking) (ci co : Z) : Prop :=
  checkIn b ≤ ci ∧ checkOut b >= co.
Definition conflicts (b : Booking) (ci co : Z) : Prop :=
  startsWithin b ci co ∨ endsWithin b ci co ∨ contains b ci co.

(** The caller owns the booking or is staff. *)
Definition authorized (b : Booking) (userId : Z) (userRole : string) : Prop :=
  UserId b = userId ∨ userRole = "admin" ∨ userRole = "manager".

(** The active part of the bookings table. *)
Definition activeBookings (db : DB) : gmap Z Booking :=
  filter (λ kb, isActive kb.2) (bookings db).

(** The timestamp of midnight of day [n], and half a day, in milliseconds. *)
Definition day (n : Z) : Z := n * Z.pos msPerDay.
Definition halfDay : Z := Z.pos msPerDay / 2.

(** The price as the exact product: the nightly price [p], an integer, times
    the least number of whole days that cover the stay. *)
Definition priceIsCeiling (p checkIn checkOut : Z) : Prop :=
  ∃ days,
    calculateTotalPrice (num p) checkIn checkOut = num (p * days)
    ∧ Z.pos msPerDay * (days - 1) < checkOut - checkIn
    ∧ checkOut - checkIn ≤ Z.pos msPerDay * days.

(** Two rows that differ at most in their status. *)
Definition sameExceptStatus (b b' : Booking) : Prop :=
  RoomId b' = RoomId b ∧ UserId b' = UserId b ∧ checkIn b' = checkIn b
  ∧ checkOut b' = checkOut b ∧ totalPrice b' = totalPrice b.

(** The database after [booking.update] of row [id] to [b']: the rooms and
    every other booking are as before. *)
Definition rowReplaced (db : DB) (id : Z) (b' : Booking) (db' : DB) : Prop :=
  rooms db' = rooms db ∧ bookings db' = <[id := b']> (bookings db).

(** The database a call leaves behind: the returned one, or the one it started
    from when it threw (every write of the service is its last step). *)
Definition stateAfter {A : Type} (db : DB) (r : result (A * DB)) : DB :=
  match r with
  | Return (_, db') => db'
  | Throw _ => db
  end.

(** The row [createBooking] stores for a request on [room]. *)
Definition pendingBooking (data : bookingData.t) (userId : Z) (room : Room)
  : Booking :=
  mkBooking (bookingData.roomId data) userId
    (bookingData.checkIn data) (bookingData.checkOut data)
    (calculateTotalPrice (price room)
       (bookingData.checkIn data) (bookingData.checkOut data))
    "pending".

(** The last step of [createBooking]: exactly one new row, pending, owned by
    the caller, priced by [calculateTotalPrice], and returned.  When the
    length of the stay in milliseconds is a safe integer the price is the
    nightly price times the whole days of the stay rounded up, as one
    multiplication of doubles. *)
Definition persistsPending (db : DB) (data : bookingData.t) (userId : Z)
    (room : Room) (r : result (Z * Booking * DB)) : Prop :=
  ∃ id b,
    r = Return (id, b, mkDB (rooms db) (<[id := b]> (bookings db)))
    ∧ bookings db !! id = None
    ∧ status b = "pending"
    ∧ UserId b = userId
    ∧ totalPrice b = calculateTotalPrice (price room)
                       (bookingData.checkIn data) (bookingData.checkOut data)
    ∧ (safeInteger (bookingData.checkOut data - bookingData.checkIn data) →
       ∃ days,
         Z.pos msPerDay * (days - 1)
           < bookingData.checkOut data - bookingData.checkIn data
         ∧ bookingData.checkOut data - bookingData.checkIn data
             ≤ Z.pos msPerDay * days
         ∧ totalPrice b = number_mul (price room) (num days)).

(** The steps of [createBooking] with three outcomes only: not-found for a
    missing room, conflict when the check answers "unavailable", and a stored
    booking in every other case. *)
Definition threeOutcomes (db : DB) (data : bookingData.t) (userId : Z) : Prop :=
  let r := createBooking db data userId in
  let check := checkRoomAvailability db (bookingData.roomId data)
                 (bookingData.checkIn data) (bookingData.checkOut data) in
  (rooms db !! bookingData.roomId data = None → failsWith NotFound r)
  ∧ (∀ room, rooms db !! bookingData.roomId data = Some room →
       (check = Return false → failsWith Conflict r)
       ∧ (check ≠ Return false → persistsPending db data userId room r)).

(** Two stays [[checkIn, checkOut)] share a moment. *)
Definition overlap (b1 b2 : Booking) : Prop :=
  Z.max (checkIn b1) (checkIn b2) < Z.min (checkOut b1) (checkOut b2).

(** No two active bookings of one room overlap. *)
Definition noDoubleBooking (db : DB) : Prop :=
  ∀ i j b1 b2,
    i ≠ j →
    bookings db !! i = Some b1 → bookings db !! j = Some b2 →
    RoomId b1 = RoomId b2 → isActive b1 → isActive b2 →
    ¬ overlap b1 b2.

(** The writing operations of the service, and a sequential execution of
    them: a call that throws leaves the database as it was. *)
Inductive call : Type :=
  | CreateBooking (data : bookingData.t) (userId : Z)
  | CancelBooking (now id userId : Z) (userRole : string)
  | UpdateBookingStatus (id : Z) (status : string).

Definition exec (db : DB) (c : call) : DB :=
  match c with
  | CreateBooking data userId => stateAfter db (createBooking db data userId)
  | CancelBooking now id userId userRole =>
      stateAfter db (cancelBooking now db id userId userRole)
  | UpdateBookingStatus id status =>
      stateAfter db (updateBookingStatus db id status)
  end.

Definition run (db : DB) (calls : list call) : DB := foldl exec db calls.

(** A status update that makes a canceled or completed booking active again. *)
Definition revives (db : DB) (c : call) : Prop :=
  match c with
  | UpdateBookingStatus id s =>
      (s = "pending" ∨ s = "confirmed")
      ∧ ∃ b, bookings db !! id = Some b ∧ ¬ isActive b
  | _ => False
  end.

(** No call of the execution revives a booking, each call taken in the
    database it runs in. *)
Fixpoint neverRevives (db : DB) (calls : list call) : Prop :=
  match calls with
  | [] => True
  | c :: calls' => ¬ revives db c ∧ neverRevives (exec db c) calls'
  end.

(** A sample database: one room at 100 a night and two bookings of it, a
    pending one from instant 0 to instant 10 and a canceled one over the same
    span. *)
Definition sampleDB : DB :=
  mkDB {[ 1 := mkRoom (num 100) ]}
       {[ 1 := mkBooking 1 7 0 10 (num 1000) "pending";
          2 := mkBooking 1 8 0 10 (num 1000) "canceled" ]}.

(** ** Listings *)

(** The columns of the owner that the listings select:
    [attributes: ['firstName', 'lastName', 'email']]. *)
Record User : Type := mkUser {
  firstName : string;
  lastName : string;
  email : string
}.

(** [order: [['createdAt', 'DESC']]]: the row created later comes first.  The
    rows of [Booking] do not carry the timestamp the model maintains, so the
    listings take the column as a function [createdAt] of the primary key. *)
Definition newerFirst (createdAt : Z → Z) (x y : Z * Booking) : Prop :=
  createdAt y.1 ≤ createdAt x.1.

Global Instance newerFirst_dec createdAt x y : Decision (newerFirst createdAt x y).
Proof. unfold newerFirst. apply _. Defined.

(** [Booking.findAll({ where, order })]: the rows that match, with their
    primary keys, newest first. *)
Definition Booking_findAll (createdAt : Z → Z) (db : DB) (w : whereClause)
  : list (Z * Booking) :=
  merge_sort (newerFirst createdAt)
    (filter (λ kb, matches w kb.2 = true) (map_to_list (bookings db))).

(** [getUserBookings]: the bookings of the user, each with its room
    ([include: [{ model: Room }]], an outer join). *)
Definition getUserBookings (createdAt : Z → Z) (db : DB) (userId : Z)
  : list (Z * Booking * option Room) :=
  (λ kb, (kb.1, kb.2, Room_findByPk db (RoomId kb.2)))
    <$> Booking_findAll createdAt db (WEq AUserId (VNum userId)).

(** [getAllBookings]: every booking, with its room and the selected columns of
    its owner; [users] is the Users table.  There is no [where] object, which
    is the empty conjunction. *)
Definition getAllBookings (createdAt : Z → Z) (users : gmap Z User) (db : DB)
  : list (Z * Booking * option Room * option User) :=
  (λ kb, (kb.1, kb.2, Room_findByPk db (RoomId kb.2), users !! UserId kb.2))
    <$> Booking_findAll createdAt db (WAnd []).

(** ** Well-formed tables *)

(** Every booking checks out after it checks in, refers to a room of the
    Rooms table and has one of the four statuses. *)
Definition wellFormed (db : DB) : Prop :=
  ∀ id b, bookings db !! id = Some b →
    checkIn b < checkOut b
    ∧ is_Some (rooms db !! RoomId b)
    ∧ status b ∈ allowedStatuses.

(** The stay of [b] and the stay from [ci] to [co] meet, end points
    included. *)
Definition touches (b : Booking) (ci co : Z) : Prop :=
  ci ≤ checkOut b ∧ checkIn b ≤ co.

(** ** The query and the tables *)

Lemma matches_conflictQuery (r ci co : Z) (b : Booking) :
  matches (conflictQuery r ci co) b = true ↔
  RoomId b = r ∧ isActive b ∧ conflicts b ci co.
Proof.
  unfold conflictQuery, isActive, conflicts, startsWithin, endsWithin, contains.
  cbn [matches forallb existsb attrOf value_leb].
  rewrite !andb_true_r, orb_false_r, !andb_true_iff, !orb_true_iff,
    !andb_true_iff, !bool_decide_eq_true, !Z.leb_le.
  rewrite !elem_of_cons, elem_of_nil.
  split.
  - intros (Hr & Hs & Hc). split; [congruence|]. split.
    + destruct Hs as [Hs|[Hs|[]]]; injection Hs; auto.
    + lia.
  - intros (Hr & Hs & Hc). split; [congruence|]. split.
    + destruct Hs as [->| ->]; auto.
    + lia.
Qed.

Lemma Booking_findOne_is_Some (db : DB) (w : whereClause) :
  is_Some (Booking_findOne db w) ↔
  ∃ id b, bookings db !! id = Some b ∧ matches w b = true.
Proof.
  unfold Booking_findOne. split.
  - intros [b Hb]. apply find_some in Hb as [Hin Hm].
    apply list_elem_of_In, list_elem_of_fmap in Hin as ([id b'] & -> & Hin).
    apply elem_of_map_to_list in Hin. eauto.
  - intros (id & b & Hb & Hm).
    destruct (List.find _ _) eqn:Hf; [eauto|].
    eapply find_none in Hf.
    + rewrite Hm in Hf. discriminate.
    + apply list_elem_of_In, list_elem_of_fmap. exists (id, b).
      split; [done|]. by apply elem_of_map_to_list.
Qed.

Lemma lastId_upper (m : gmap Z Booking) (id : Z) (b : Booking) :
  m !! id = Some b → id ≤ lastId m.
Proof.
  assert (Hmax : ∀ l : list Z, id ∈ l → id ≤ foldr Z.max 0 l).
  { induction 1 as [x l|x y l _ IH]; simpl; lia. }
  intros Hb. apply Hmax, list_elem_of_fmap. exists (id, b).
  split; [done|]. by apply elem_of_map_to_list.
Qed.

Lemma lastId_fresh (m : gmap Z Booking) : m !! (lastId m + 1) = None.
Proof.
  destruct (m !! (lastId m + 1)) eqn:Hb; [|done].
  apply lastId_upper in Hb. lia.
Qed.

Lemma accessDenied_false (b : Booking) (userId : Z) (userRole : string) :
  accessDenied b userId userRole = false ↔ authorized b userId userRole.
Proof.
  unfold accessDenied, authorized.
  rewrite !andb_false_iff, !negb_false_iff, !bool_decide_eq_true. tauto.
Qed.

Lemma accessDenied_true (b : Booking) (userId : Z) (userRole : string) :
  accessDenied b userId userRole = true ↔
  UserId b ≠ userId ∧ userRole ≠ "admin" ∧ userRole ≠ "manager".
Proof.
  unfold accessDenied.
  rewrite !andb_true_iff, !negb_true_iff, !bool_decide_eq_false. tauto.
Qed.

(** The availability check returns the negation of "some active booking of the
    room conflicts". *)
Lemma checkRoomAvailability_Return (db : DB) (r ci co : Z) (v : bool) :
  checkRoomAvailability db r ci co = Return v ↔
  ci < co ∧
  (v = false ↔ ∃ id b, bookings db !! id = Some b ∧ RoomId b = r ∧
                        isActive b ∧ conflicts b ci co).
Proof.
  unfold checkRoomAvailability.
  destruct (Z.geb_spec ci co) as [Hge|Hlt].
  - split; [discriminate|]. lia.
  - assert (Hfind : is_Some (Booking_findOne db (conflictQuery r ci co)) ↔
      ∃ id b, bookings db !! id = Some b ∧ RoomId b = r ∧
              isActive b ∧ conflicts b ci co).
    { rewrite Booking_findOne_is_Some.
      by setoid_rewrite matches_conflictQuery. }
    rewrite <- Hfind. split.
    + intros [= <-]. split; [done|].
      by rewrite negb_false_iff, bool_decide_eq_true.
    + intros [_ Hv]. f_equal.
      destruct (bool_decide _) eqn:Hd; destruct v; simpl; try done.
      * apply bool_decide_eq_true, Hv in Hd. discriminate.
      * apply bool_decide_eq_false in Hd. destruct Hd. by apply Hv.
Qed.

Lemma activeBookings_lookup (db : DB) (id : Z) (b : Booking) :
  activeBookings db !! id = Some b ↔ bookings db !! id = Some b ∧ isActive b.
Proof. unfold activeBookings. by rewrite map_lookup_filter_Some. Qed.

(** ** Availability *)

(** C3: for a stay with [ci < co], [checkRoomAvailability] returns true exactly
    when no pending or confirmed booking of the room starts within
    [[ci, co]], ends within [[ci, co]] or contains the stay, and returns false
    otherwise; canceled and completed bookings never affect the answer (two
    tables with the same active bookings give the same answer). *)
Theorem checkRoomAvailability_iff (db : DB) (r ci co : Z) :
  ci < co →
  (checkRoomAvailability db r ci co = Return true ↔
     ∀ id b, bookings db !! id = Some b → RoomId b = r → isActive b →
             ¬ (startsWithin b ci co ∨ endsWithin b ci co ∨ contains b ci co))
  ∧ (checkRoomAvailability db r ci co = Return false ↔
     ∃ id b, bookings db !! id = Some b ∧ RoomId b = r ∧ isActive b ∧
             (startsWithin b ci co ∨ endsWithin b ci co ∨ contains b ci co))
  ∧ (∀ db', activeBookings db' = activeBookings db →
            checkRoomAvailability db' r ci co = checkRoomAvailability db r ci co).
Proof.
  intros Hlt. fold (conflicts) in *.
  assert (Hfalse : ∀ d, checkRoomAvailability d r ci co = Return false ↔
     ∃ id b, bookings d !! id = Some b ∧ RoomId b = r ∧ isActive b ∧
             conflicts b ci co).
  { intros d. rewrite checkRoomAvailability_Return. split.
    - intros [_ Hv]. by apply Hv.
    - intros Hex. by repeat split. }
  assert (Htrue : ∀ d, checkRoomAvailability d r ci co = Return true ↔
     ¬ ∃ id b, bookings d !! id = Some b ∧ RoomId b = r ∧ isActive b ∧
               conflicts b ci co).
  { intros d. rewrite checkRoomAvailability_Return. split.
    - intros [_ Hv] Hex. apply Hv in Hex. discriminate.
    - intros Hno. split; [done|]. split; [discriminate|]. intros Hex. by destruct Hno. }
  split; [|split].
  - rewrite Htrue. split.
    + intros Hno id b Hb Hr Ha Hc. apply Hno. eauto 6.
    + intros Hall (id & b & Hb & Hr & Ha & Hc). by eapply Hall.
  - apply Hfalse.
  - intros db' Heq.
    assert (Hsame : (∃ id b, bookings db' !! id = Some b ∧ RoomId b = r ∧
                       isActive b ∧ conflicts b ci co) ↔
                    (∃ id b, bookings db !! id = Some b ∧ RoomId b = r ∧
                       isActive b ∧ conflicts b ci co)).
    { split; intros (id & b & Hb & Hr & Ha & Hc); exists id, b;
        (split; [|done]);
        [ assert (Hl : activeBookings db !! id = Some b)
            by (rewrite <- Heq; by apply activeBookings_lookup)
        | assert (Hl : activeBookings db' !! id = Some b)
            by (rewrite Heq; by apply activeBookings_lookup) ];
        by apply activeBookings_lookup in Hl as [? _]. }
    destruct (checkRoomAvailability db r ci co) as [[]|e] eqn:Hdb.
    + apply Htrue. rewrite Hsame. by apply Htrue.
    + apply Hfalse. rewrite Hsame. by apply Hfalse.
    + apply (f_equal (λ x, match x with Throw _ => true | _ => false end)) in Hdb.
      unfold checkRoomAvailability in Hdb.
      destruct (Z.geb_spec ci co); [lia|discriminate].
Qed.

Lemma checkRoomAvailability_iff_witness :
  ¬ (startsWithin (mkBooking 1 7 0 10 (num 1000) "pending") 11 20
     ∨ endsWithin (mkBooking 1 7 0 10 (num 1000) "pending") 11 20
     ∨ contains (mkBooking 1 7 0 10 (num 1000) "pending") 11 20).
Proof.
  apply (proj1 (proj1 (checkRoomAvailability_iff sampleDB 1 11 20 ltac:(lia)))
           ltac:(reflexivity) 1);
    [reflexivity | reflexivity | left; reflexivity].
Defined.

(** C5: [checkRoomAvailability] throws a validation error exactly when
    [checkIn ≥ checkOut]; with [checkIn < checkOut] it returns a boolean. *)
Theorem checkRoomAvailability_validation (db : DB) (r ci co : Z) :
  (failsWith Validation (checkRoomAvailability db r ci co) ↔ ci >= co)
  ∧ (ci < co → ∃ v, checkRoomAvailability db r ci co = Return v).
Proof.
  unfold failsWith, checkRoomAvailability.
  destruct (Z.geb_spec ci co) as [Hge|Hlt].
  - split; [|lia]. split; [lia|]. intros _. by exists CheckOutNotAfterCheckIn.
  - split; [|eauto]. split; [|lia]. by intros (e & [=] & _).
Qed.

(** ** Price *)

(** *** Rounding to a double *)

Lemma roundHalfEven_floor (x : Q) :
  Qfloor x ≤ roundHalfEven x ≤ Qfloor x + 1.
Proof.
  unfold roundHalfEven.
  destruct (Qcompare _ _); [destruct (Z.even _)| |]; lia.
Qed.

Lemma roundHalfEven_up (x : Q) :
  roundHalfEven x = Qfloor x + 1 → (inject_Z (Qfloor x) + (1 # 2) <= x)%Q.
Proof.
  unfold roundHalfEven.
  destruct (Qcompare_spec (x - inject_Z (Qfloor x)) (1 # 2)) as [H|H|H].
  - intros _. lra.
  - lia.
  - intros _. lra.
Qed.

Lemma roundHalfEven_down (x : Q) :
  roundHalfEven x = Qfloor x → (x <= inject_Z (Qfloor x) + (1 # 2))%Q.
Proof.
  unfold roundHalfEven.
  destruct (Qcompare_spec (x - inject_Z (Qfloor x)) (1 # 2)) as [H|H|H].
  - intros _. lra.
  - intros _. lra.
  - lia.
Qed.

Lemma inject_Z_le (a b : Z) : (inject_Z a <= inject_Z b)%Q → a ≤ b.
Proof. by rewrite <- Zle_Qle. Qed.

Lemma inject_Z_lt (a b : Z) : (inject_Z a < inject_Z b)%Q → a < b.
Proof. by rewrite <- Zlt_Qlt. Qed.

Lemma roundHalfEven_ge (x : Q) (n : Z) :
  (inject_Z n <= x)%Q → n ≤ roundHalfEven x.
Proof.
  intros H. apply Qfloor_resp_le in H. rewrite Qfloor_Z in H.
  pose proof (roundHalfEven_floor x). lia.
Qed.

Lemma roundHalfEven_le (x : Q) (n : Z) :
  (x <= inject_Z n)%Q → roundHalfEven x ≤ n.
Proof.
  intros H. pose proof (roundHalfEven_floor x) as [_ Hf].
  destruct (Z.eq_dec (roundHalfEven x) (Qfloor x + 1)) as [Hup|Hup].
  - apply roundHalfEven_up in Hup.
    assert (inject_Z (Qfloor x) < inject_Z n)%Q by lra.
    apply inject_Z_lt in H0. lia.
  - pose proof (Qfloor_le x).
    assert (inject_Z (Qfloor x) <= inject_Z n)%Q by lra.
    apply inject_Z_le in H1. pose proof (roundHalfEven_floor x). lia.
Qed.

Lemma roundHalfEven_Z (n : Z) : roundHalfEven (inject_Z n) = n.
Proof.
  apply Z.le_antisymm.
  - apply roundHalfEven_le. lra.
  - apply roundHalfEven_ge. lra.
Qed.

Lemma roundHalfEven_near (x : Q) :
  (x - (1 # 2) <= inject_Z (roundHalfEven x) <= x + (1 # 2))%Q.
Proof.
  pose proof (Qfloor_le x) as Hlo. pose proof (Qlt_floor x) as Hhi.
  rewrite inject_Z_plus in Hhi. change (inject_Z 1) with 1%Q in Hhi.
  pose proof (roundHalfEven_floor x) as [H1 H2].
  destruct (Z.eq_dec (roundHalfEven x) (Qfloor x)) as [Hd|Hd].
  - pose proof (roundHalfEven_down x Hd). rewrite Hd. split; lra.
  - assert (Hu : roundHalfEven x = Qfloor x + 1) by lia.
    pose proof (roundHalfEven_up x Hu). rewrite Hu, inject_Z_plus.
    change (inject_Z 1) with 1%Q. split; lra.
Qed.

Lemma roundHalfEven_mono (x y : Q) :
  (x <= y)%Q → roundHalfEven x ≤ roundHalfEven y.
Proof.
  intros Hxy. pose proof (Qfloor_resp_le x y Hxy) as Hf.
  pose proof (roundHalfEven_floor x) as [Hx1 Hx2].
  pose proof (roundHalfEven_floor y) as [Hy1 Hy2].
  destruct (Z.eq_dec (Qfloor x) (Qfloor y)) as [Heq|Hne]; [|lia].
  destruct (Z.eq_dec (roundHalfEven x) (Qfloor x)) as [Hd|Hd]; [lia|].
  assert (Hu : roundHalfEven x = Qfloor x + 1) by lia. rewrite Hu.
  revert Hu. unfold roundHalfEven. rewrite <- Heq.
  destruct (Qcompare_spec (x - inject_Z (Qfloor x)) (1 # 2)) as [Hx|Hx|Hx];
    destruct (Qcompare_spec (y - inject_Z (Qfloor x)) (1 # 2)) as [Hy|Hy|Hy];
    try lia; try lra.
Qed.

Lemma pow2_pos (e : Z) : (0 < pow2 e)%Q.
Proof. apply Qpower_0_lt. reflexivity. Qed.

Lemma pow2_add (a b : Z) : (pow2 (a + b) == pow2 a * pow2 b)%Q.
Proof. apply Qpower_plus. discriminate. Qed.

Lemma pow2_le (a b : Z) : a ≤ b → (pow2 a <= pow2 b)%Q.
Proof. intros H. apply Qpower_le_compat_l; [done|]. discriminate. Qed.

Lemma pow2_lt_inv (a b : Z) : (pow2 a < pow2 b)%Q → a < b.
Proof. intros H. eapply Qpower_lt_compat_l_inv; [exact H|reflexivity]. Qed.

Lemma pow2_Z (n : Z) : 0 ≤ n → (pow2 n == inject_Z (2 ^ n))%Q.
Proof. intros H. unfold pow2. by rewrite (Zpower_Qpower 2 n H). Qed.

Lemma Qmake_mult_den (n : Z) (d : positive) :
  ((n # d) * inject_Z (Z.pos d) == inject_Z n)%Q.
Proof. unfold Qeq, Qmult, inject_Z. simpl. lia. Qed.

Lemma ilog2_spec (x : Q) :
  (0 < x)%Q → (pow2 (ilog2 x) <= x)%Q ∧ (x < pow2 (ilog2 x + 1))%Q.
Proof.
  destruct x as [n d]. intros Hx.
  assert (Hn : 0 < n) by (unfold Qlt in Hx; simpl in Hx; lia).
  unfold ilog2. cbn [Qnum Qden].
  set (a := Z.log2 n). set (b := Z.log2 (Z.pos d)).
  destruct (Z.log2_spec n Hn) as [Ha1 Ha2]. fold a in Ha1, Ha2.
  destruct (Z.log2_spec (Z.pos d) ltac:(done)) as [Hb1 Hb2]. fold b in Hb1, Hb2.
  assert (Ha0 : 0 ≤ a) by apply Z.log2_nonneg.
  assert (Hb0 : 0 ≤ b) by apply Z.log2_nonneg.
  pose proof (Qmake_mult_den n d) as Hnd.
  pose proof (pow2_pos (a - b + 1)) as Hp1.
  pose proof (pow2_pos (a - b - 1)) as Hp2.
  assert (Hup : (n # d < pow2 (a - b + 1))%Q).
  { assert (H1 : (pow2 (a - b + 1) * pow2 b == inject_Z (2 ^ Z.succ a))%Q).
    { rewrite <- pow2_add, <- pow2_Z by lia. by replace (a - b + 1 + b) with (Z.succ a) by lia. }
    assert (H2 : (pow2 b <= inject_Z (Z.pos d))%Q).
    { rewrite pow2_Z by done. by rewrite <- Zle_Qle. }
    assert (H3 : (inject_Z n < inject_Z (2 ^ Z.succ a))%Q) by (by rewrite <- Zlt_Qlt).
    assert (H4 : (0 < inject_Z (Z.pos d))%Q) by reflexivity.
    clear -Hnd H1 H2 H3 H4 Hp1. nra. }
  assert (Hlo : (pow2 (a - b - 1) <= n # d)%Q).
  { assert (H1 : (pow2 (a - b - 1) * pow2 (Z.succ b) == inject_Z (2 ^ a))%Q).
    { rewrite <- pow2_add, <- pow2_Z by lia. by replace (a - b - 1 + Z.succ b) with a by lia. }
    assert (H2 : (inject_Z (Z.pos d) <= pow2 (Z.succ b))%Q).
    { rewrite pow2_Z by lia. rewrite <- Zle_Qle. lia. }
    assert (H3 : (inject_Z (2 ^ a) <= inject_Z n)%Q) by (by rewrite <- Zle_Qle).
    assert (H4 : (0 < inject_Z (Z.pos d))%Q) by reflexivity.
    clear -Hnd H1 H2 H3 H4 Hp2. nra. }
  destruct (Qle_bool (pow2 (a - b)) (n # d)) eqn:Hk.
  - apply Qle_bool_iff in Hk. done.
  - assert (Hk' : ¬ (pow2 (a - b) <= n # d)%Q).
    { intros H. apply Qle_bool_iff in H. congruence. }
    apply Qnot_le_lt in Hk'.
    replace (a - b - 1 + 1) with (a - b) by lia. done.
Qed.

Lemma ilog2_mono (x y : Q) :
  (0 < x)%Q → (x <= y)%Q → ilog2 x ≤ ilog2 y.
Proof.
  intros Hx Hxy.
  destruct (ilog2_spec x Hx) as [Hx1 _].
  destruct (ilog2_spec y ltac:(lra)) as [_ Hy2].
  assert (H : (pow2 (ilog2 x) < pow2 (ilog2 y + 1))%Q) by lra.
  apply pow2_lt_inv in H. lia.
Qed.

Lemma ilog2_upper (x : Q) (u : Z) :
  (0 < x)%Q → (x < pow2 u)%Q → ilog2 x < u.
Proof.
  intros Hx Hu. destruct (ilog2_spec x Hx) as [Hx1 _].
  apply pow2_lt_inv. lra.
Qed.

Lemma ilog2_lower (x : Q) (u : Z) :
  (pow2 u <= x)%Q → u ≤ ilog2 x.
Proof.
  intros Hu. pose proof (pow2_pos u).
  destruct (ilog2_spec x ltac:(lra)) as [_ Hx2].
  assert (H' : (pow2 u < pow2 (ilog2 x + 1))%Q) by lra.
  apply pow2_lt_inv in H'. lia.
Qed.

Lemma roundAt_le (e : Z) (x : Q) (n : Z) :
  (x <= inject_Z n * pow2 e)%Q → (roundAt e x <= inject_Z n * pow2 e)%Q.
Proof.
  intros H. pose proof (pow2_pos e) as Hp. unfold roundAt.
  apply Qmult_le_compat_r; [|lra].
  rewrite <- Zle_Qle. apply roundHalfEven_le.
  by apply Qle_shift_div_r.
Qed.

Lemma roundAt_ge (e : Z) (x : Q) (n : Z) :
  (inject_Z n * pow2 e <= x)%Q → (inject_Z n * pow2 e <= roundAt e x)%Q.
Proof.
  intros H. pose proof (pow2_pos e) as Hp. unfold roundAt.
  apply Qmult_le_compat_r; [|lra].
  rewrite <- Zle_Qle. apply roundHalfEven_ge.
  by apply Qle_shift_div_l.
Qed.

Lemma roundAt_mono (e : Z) (x y : Q) :
  (x <= y)%Q → (roundAt e x <= roundAt e y)%Q.
Proof.
  intros H. pose proof (pow2_pos e) as Hp. unfold roundAt.
  apply Qmult_le_compat_r; [|lra].
  rewrite <- Zle_Qle. apply roundHalfEven_mono.
  apply Qmult_le_compat_r; [done|]. apply Qinv_le_0_compat. lra.
Qed.

Lemma roundAt_near (e : Z) (x : Q) :
  (x - pow2 e * (1 # 2) <= roundAt e x)%Q
  ∧ (roundAt e x <= x + pow2 e * (1 # 2))%Q.
Proof.
  pose proof (pow2_pos e) as Hp. unfold roundAt.
  destruct (roundHalfEven_near (x / pow2 e)) as [H1 H2].
  assert (Hx : (x == x / pow2 e * pow2 e)%Q).
  { field. lra. }
  set (t := (x / pow2 e)%Q) in *. set (r := inject_Z (roundHalfEven t)) in *.
  clearbody t r. split; nra.
Qed.

Lemma Qabs_nonneg_eq (x : Q) : (0 <= x)%Q → Qabs x = x.
Proof.
  destruct x as [n d]. unfold Qle. simpl. intros H.
  f_equal. lia.
Qed.

Lemma Qabs_nonpos_eq (x : Q) : (x <= 0)%Q → Qabs x = (- x)%Q.
Proof.
  destruct x as [n d]. unfold Qle, Qopp. simpl. intros H.
  f_equal. lia.
Qed.

Lemma roundQ_mono_pos (x y : Q) :
  (0 < x)%Q → (x <= y)%Q → (roundQ x <= roundQ y)%Q.
Proof.
  intros Hx Hxy. unfold roundQ, ulpExponent.
  rewrite (Qabs_nonneg_eq x), (Qabs_nonneg_eq y) by lra.
  pose proof (ilog2_mono x y Hx Hxy) as HL.
  destruct (ilog2_spec x Hx) as [_ Hx2].
  destruct (ilog2_spec y ltac:(lra)) as [Hy1 _].
  set (Lx := ilog2 x) in *. set (Ly := ilog2 y) in *.
  destruct (Z.eq_dec (Z.max (Lx - 52) (-1074)) (Z.max (Ly - 52) (-1074)))
    as [He|He].
  - rewrite He. by apply roundAt_mono.
  - set (ex := Z.max (Lx - 52) (-1074)) in *.
    assert (Hey : Z.max (Ly - 52) (-1074) = Ly - 52) by lia.
    rewrite Hey.
    assert (HLxy : Lx + 1 ≤ Ly) by lia.
    pose proof (pow2_le (Lx + 1) Ly HLxy) as Hpow.
    apply Qle_trans with (pow2 Ly).
    + assert (Hb : (pow2 Ly == inject_Z (2 ^ (Ly - ex)) * pow2 ex)%Q).
      { rewrite <- pow2_Z, <- pow2_add by lia.
        by replace (Ly - ex + ex) with Ly by lia. }
      rewrite Hb. apply roundAt_le. rewrite <- Hb. lra.
    + assert (Hb : (pow2 Ly == inject_Z (2 ^ 52) * pow2 (Ly - 52))%Q).
      { rewrite <- pow2_Z, <- pow2_add by lia.
        by replace (52 + (Ly - 52)) with Ly by lia. }
      rewrite Hb. apply roundAt_ge. rewrite <- Hb. lra.
Qed.

Lemma roundQ_mono_neg (x y : Q) :
  (y < 0)%Q → (x <= y)%Q → (roundQ x <= roundQ y)%Q.
Proof.
  intros Hy Hxy. unfold roundQ, ulpExponent.
  rewrite (Qabs_nonpos_eq x), (Qabs_nonpos_eq y) by lra.
  pose proof (ilog2_mono (- y) (- x) ltac:(lra) ltac:(lra)) as HL.
  destruct (ilog2_spec (- y) ltac:(lra)) as [_ Hy2].
  destruct (ilog2_spec (- x) ltac:(lra)) as [Hx1 _].
  set (Lx := ilog2 (- x)) in *. set (Ly := ilog2 (- y)) in *.
  destruct (Z.eq_dec (Z.max (Lx - 52) (-1074)) (Z.max (Ly - 52) (-1074)))
    as [He|He].
  - rewrite He. by apply roundAt_mono.
  - set (ey := Z.max (Ly - 52) (-1074)) in *.
    assert (Hex : Z.max (Lx - 52) (-1074) = Lx - 52) by lia.
    rewrite Hex.
    assert (HLxy : Ly + 1 ≤ Lx) by lia.
    pose proof (pow2_le (Ly + 1) Lx HLxy) as Hpow.
    apply Qle_trans with (- pow2 Lx)%Q.
    + assert (Hb : (- pow2 Lx == inject_Z (- 2 ^ 52) * pow2 (Lx - 52))%Q).
      { rewrite inject_Z_opp.
        setoid_replace (- inject_Z (2 ^ 52) * pow2 (Lx - 52))%Q
          with (- (inject_Z (2 ^ 52) * pow2 (Lx - 52)))%Q using relation Qeq by ring.
        rewrite <- pow2_Z, <- pow2_add by lia.
        by replace (52 + (Lx - 52)) with Lx by lia. }
      rewrite Hb. apply roundAt_le. rewrite <- Hb. lra.
    + assert (Hb : (- pow2 Lx == inject_Z (- 2 ^ (Lx - ey)) * pow2 ey)%Q).
      { rewrite inject_Z_opp.
        setoid_replace (- inject_Z (2 ^ (Lx - ey)) * pow2 ey)%Q
          with (- (inject_Z (2 ^ (Lx - ey)) * pow2 ey))%Q using relation Qeq by ring.
        rewrite <- pow2_Z, <- pow2_add by lia.
        by replace (Lx - ey + ey) with Lx by lia. }
      rewrite Hb. apply roundAt_ge. rewrite <- Hb. lra.
Qed.

Lemma roundQ_nonneg (x : Q) : (0 <= x)%Q → (0 <= roundQ x)%Q.
Proof.
  intros H. unfold roundQ.
  setoid_replace 0%Q with (inject_Z 0 * pow2 (ulpExponent x))%Q using relation Qeq by ring.
  apply roundAt_ge. ring_simplify. done.
Qed.

Lemma roundQ_nonpos (x : Q) : (x <= 0)%Q → (roundQ x <= 0)%Q.
Proof.
  intros H. unfold roundQ.
  setoid_replace 0%Q with (inject_Z 0 * pow2 (ulpExponent x))%Q using relation Qeq by ring.
  apply roundAt_le. ring_simplify. done.
Qed.

Lemma roundQ_mono (x y : Q) : (x <= y)%Q → (roundQ x <= roundQ y)%Q.
Proof.
  intros Hxy.
  destruct (Qlt_le_dec 0 x) as [Hx|Hx].
  - by apply roundQ_mono_pos.
  - destruct (Qlt_le_dec y 0) as [Hy|Hy].
    + by apply roundQ_mono_neg.
    + apply Qle_trans with 0%Q; [by apply roundQ_nonpos|by apply roundQ_nonneg].
Qed.

Lemma Qle_bool_false (x y : Q) : Qle_bool x y = false → (y < x)%Q.
Proof.
  intros H. apply Qnot_le_lt. intros Hle. apply Qle_bool_iff in Hle. congruence.
Qed.

Lemma round_mono (x y : Q) : (x <= y)%Q → number_le (round x) (round y).
Proof.
  intros Hxy. apply roundQ_mono in Hxy. unfold round.
  set (vx := roundQ x) in *. set (vy := roundQ y) in *. clearbody vx vy.
  pose proof (pow2_pos 1024) as Hp.
  destruct (Qle_bool (pow2 1024) (Qabs vx)) eqn:Hox;
    destruct (Qle_bool (pow2 1024) (Qabs vy)) eqn:Hoy;
    destruct (Qle_bool 0 vx) eqn:Hsx; destruct (Qle_bool 0 vy) eqn:Hsy;
    simpl; try done;
    try apply Qle_bool_iff in Hox; try apply Qle_bool_iff in Hoy;
    try apply Qle_bool_iff in Hsx; try apply Qle_bool_iff in Hsy;
    try apply Qle_bool_false in Hox; try apply Qle_bool_false in Hoy;
    try apply Qle_bool_false in Hsx; try apply Qle_bool_false in Hsy;
    try (rewrite (Qabs_nonneg_eq vx) in Hox by lra);
    try (rewrite (Qabs_nonneg_eq vy) in Hoy by lra);
    try (rewrite (Qabs_nonpos_eq vx) in Hox by lra);
    try (rewrite (Qabs_nonpos_eq vy) in Hoy by lra);
    rewrite ?Qred_correct; lra.
Qed.

Lemma ilog2_nonpos (x : Q) : (x <= 0)%Q → ilog2 x ≤ 0.
Proof.
  destruct x as [n d]. unfold Qle, ilog2. cbn [Qnum Qden]. intros H.
  rewrite (Z.log2_nonpos n) by lia.
  pose proof (Z.log2_nonneg (Z.pos d)) as Hd.
  set (b := Z.log2 (Z.pos d)) in *. clearbody b.
  destruct (Qle_bool _ _); lia.
Qed.

Lemma ulpExponent_upper (x : Q) (u : Z) :
  1 ≤ u → (Qabs x < pow2 u)%Q → ulpExponent x ≤ u - 53.
Proof.
  intros Hu Hx. unfold ulpExponent. set (L := ilog2 (Qabs x)).
  destruct (Qlt_le_dec 0 (Qabs x)) as [Hpos|Hzero].
  - pose proof (ilog2_upper _ _ Hpos Hx) as HL. fold L in HL. lia.
  - pose proof (ilog2_nonpos _ Hzero) as HL. fold L in HL. lia.
Qed.

(** A number on the grid of its own exponent is not changed. *)
Lemma roundQ_on_grid (x : Q) (n : Z) :
  (x == inject_Z n * pow2 (ulpExponent x))%Q → (roundQ x == x)%Q.
Proof.
  intros H. unfold roundQ.
  pose proof (roundAt_le (ulpExponent x) x n) as Hle.
  pose proof (roundAt_ge (ulpExponent x) x n) as Hge.
  set (r := roundAt (ulpExponent x) x) in *.
  set (g := (inject_Z n * pow2 (ulpExponent x))%Q) in *.
  clearbody r g. lra.
Qed.

Lemma on_grid_of_integer (z e : Z) :
  e ≤ 0 → (inject_Z z == inject_Z (z * 2 ^ (- e)) * pow2 e)%Q.
Proof.
  intros He. rewrite inject_Z_mult, <- pow2_Z by lia.
  rewrite <- Qmult_assoc, <- pow2_add.
  replace (- e + e) with 0 by lia. unfold pow2. simpl. ring.
Qed.

Lemma Qabs_inject_Z (z : Z) : Qabs (inject_Z z) = inject_Z (Z.abs z).
Proof. reflexivity. Qed.

Lemma roundQ_integer (z : Z) :
  Z.abs z < 2 ^ 53 → (roundQ (inject_Z z) == inject_Z z)%Q.
Proof.
  intros Hz. apply (roundQ_on_grid _ (z * 2 ^ (- ulpExponent (inject_Z z)))).
  apply on_grid_of_integer.
  enough (ulpExponent (inject_Z z) ≤ 53 - 53) by lia.
  apply ulpExponent_upper; [done|].
  rewrite Qabs_inject_Z, pow2_Z by done. by rewrite <- Zlt_Qlt.
Qed.

Lemma round_finite (x : Q) (z : Z) :
  (roundQ x == inject_Z z)%Q → Z.abs z < 2 ^ 1024 → round x = num z.
Proof.
  intros Hv Hz. unfold round, num.
  assert (Hno : Qle_bool (pow2 1024) (Qabs (roundQ x)) = false).
  { destruct (Qle_bool _ _) eqn:Ho; [|done].
    apply Qle_bool_iff in Ho. rewrite Hv, Qabs_inject_Z, pow2_Z in Ho by done.
    rewrite <- Zle_Qle in Ho. lia. }
  rewrite Hno. f_equal. rewrite (Qred_complete _ _ Hv).
  apply Qred_identity. simpl. apply Z.gcd_1_r.
Qed.

Lemma round_integer (z : Z) : Z.abs z < 2 ^ 53 → round (inject_Z z) = num z.
Proof.
  intros Hz. apply round_finite; [by apply roundQ_integer|].
  assert (2 ^ 53 < 2 ^ 1024) by (apply Z.pow_lt_mono_r; lia). lia.
Qed.

Lemma inject_Z_pred (c : Z) : (inject_Z (c - 1) == inject_Z c - 1)%Q.
Proof. unfold Qeq, Qminus, Qplus, Qopp, inject_Z. simpl. lia. Qed.

Lemma Qceiling_unique (v : Q) (c : Z) :
  (inject_Z (c - 1) < v)%Q → (v <= inject_Z c)%Q → Qceiling v = c.
Proof.
  intros Hlo Hhi.
  pose proof (Qle_ceiling v) as H1. pose proof (Qceiling_lt v) as H2.
  assert (Ha : (inject_Z (c - 1) < inject_Z (Qceiling v))%Q) by lra.
  assert (Hb : (inject_Z (Qceiling v - 1) < inject_Z c)%Q) by lra.
  rewrite <- Zlt_Qlt in Ha, Hb. lia.
Qed.

(** The number of days: for a difference that is a safe integer the rounded
    quotient has the ceiling of the exact one. *)
Lemma daysCount_exact (d : Z) :
  Z.abs d < 2 ^ 53 →
  Qceiling (roundQ (roundQ (inject_Z d) / inject_Z (Z.pos msPerDay)))
  = - (- d / Z.pos msPerDay).
Proof.
  intros Hd. set (c := - (- d / Z.pos msPerDay)).
  assert (Hc : Z.pos msPerDay * (c - 1) < d ≤ Z.pos msPerDay * c).
  { pose proof (Z.div_mod (- d) (Z.pos msPerDay) ltac:(done)).
    pose proof (Z.mod_pos_bound (- d) (Z.pos msPerDay) ltac:(done)).
    unfold c. lia. }
  set (D := Z.pos msPerDay) in *.
  assert (HD : D = 86400000) by reflexivity.
  pose proof (roundQ_integer d Hd) as Hdiff.
  set (x := (roundQ (inject_Z d) / inject_Z D)%Q).
  assert (Hx : (x * inject_Z D == inject_Z d)%Q).
  { unfold x. rewrite Hdiff. field. rewrite HD. discriminate. }
  assert (HDq : (inject_Z D == 86400000)%Q) by (by rewrite HD).
  assert (Hhi : (x <= inject_Z c)%Q).
  { assert (inject_Z d <= inject_Z (D * c))%Q by (rewrite <- Zle_Qle; lia).
    rewrite inject_Z_mult in H. clear -Hx HDq H. nra. }
  assert (Hsmall : (Qabs x < pow2 27)%Q).
  { apply Qabs_Qlt_condition.
    assert (H1 : (inject_Z (- 2 ^ 53) < inject_Z d)%Q) by (rewrite <- Zlt_Qlt; lia).
    assert (H2 : (inject_Z d < inject_Z (2 ^ 53))%Q) by (rewrite <- Zlt_Qlt; lia).
    assert (H3 : (pow2 27 == 134217728)%Q) by reflexivity.
    assert (H4 : (inject_Z (2 ^ 53) == 9007199254740992)%Q) by reflexivity.
    assert (H5 : (inject_Z (- 2 ^ 53) == - 9007199254740992)%Q) by reflexivity.
    clear -Hx HDq H1 H2 H3 H4 H5. split; nra. }
  pose proof (ulpExponent_upper x 27 ltac:(done) Hsmall) as He.
  apply Qceiling_unique.
  - (* above c - 1 *)
    destruct (Z.eq_dec d (D * c)) as [Heq|Hne].
    + assert (Hxc : (inject_Z c <= x)%Q).
      { assert (inject_Z d == inject_Z (D * c))%Q by (by rewrite Heq).
        rewrite inject_Z_mult in H. clear -Hx HDq H. nra. }
      assert (Hg : (inject_Z c <= roundQ x)%Q).
      { rewrite (on_grid_of_integer c (ulpExponent x)) by lia.
        apply roundAt_ge. by rewrite <- on_grid_of_integer by lia. }
      rewrite inject_Z_pred. lra.
    + assert (Hgap : (inject_Z (c - 1) * inject_Z D + 1 <= x * inject_Z D)%Q).
      { rewrite Hx, <- inject_Z_mult.
        change 1%Q with (inject_Z 1). rewrite <- inject_Z_plus, <- Zle_Qle. lia. }
      destruct (roundAt_near (ulpExponent x) x) as [Hnear _].
      fold (roundQ x) in Hnear.
      assert (Hulp : (pow2 (ulpExponent x) <= pow2 (-26))%Q) by (apply pow2_le; lia).
      assert (H26 : (pow2 (-26) == 1 # 67108864)%Q) by reflexivity.
      set (u := pow2 (ulpExponent x)) in *. set (r := roundQ x) in *.
      set (k := inject_Z (c - 1)) in *.
      clearbody u r k. clear -Hgap Hnear Hulp H26 HDq. nra.
  - (* at most c *)
    rewrite (on_grid_of_integer c (ulpExponent x)) by lia.
    apply roundAt_le. by rewrite <- on_grid_of_integer by lia.
Qed.

Lemma calculateTotalPrice_safe (pricePerNight : number) (ci co : Z) :
  safeInteger (co - ci) →
  calculateTotalPrice pricePerNight ci co
  = number_mul pricePerNight (num (- (- (co - ci) / Z.pos msPerDay))).
Proof.
  intros Hd. unfold calculateTotalPrice. by rewrite daysCount_exact.
Qed.

Lemma ceiling_days (d : Z) :
  Z.pos msPerDay * (- (- d / Z.pos msPerDay) - 1) < d
  ∧ d ≤ Z.pos msPerDay * - (- d / Z.pos msPerDay).
Proof.
  pose proof (Z.div_mod (- d) (Z.pos msPerDay) ltac:(done)).
  pose proof (Z.mod_pos_bound (- d) (Z.pos msPerDay) ltac:(done)).
  lia.
Qed.

Lemma number_mul_safe (p days : Z) :
  safeInteger (p * days) → number_mul (num p) (num days) = num (p * days).
Proof. intros H. simpl. by apply (round_integer (p * days)). Qed.

Lemma Qdiv_day_mono (x y : Q) :
  (x <= y)%Q →
  (x / inject_Z (Z.pos msPerDay) <= y / inject_Z (Z.pos msPerDay))%Q.
Proof.
  intros H. apply Qmult_le_compat_r; [done|]. by apply Qinv_le_0_compat.
Qed.

Lemma daysCount_mono (d1 d2 : Z) :
  d1 ≤ d2 →
  Qceiling (roundQ (roundQ (inject_Z d1) / inject_Z (Z.pos msPerDay)))
  ≤ Qceiling (roundQ (roundQ (inject_Z d2) / inject_Z (Z.pos msPerDay))).
Proof.
  intros H. apply Qceiling_resp_le, roundQ_mono, Qdiv_day_mono, roundQ_mono.
  by rewrite <- Zle_Qle.
Qed.

Lemma daysCount_nonpos (d : Z) :
  d ≤ 0 →
  Qceiling (roundQ (roundQ (inject_Z d) / inject_Z (Z.pos msPerDay))) ≤ 0.
Proof.
  intros H.
  assert (Hd : (roundQ (inject_Z d) <= 0)%Q).
  { apply roundQ_nonpos. change 0%Q with (inject_Z 0). by rewrite <- Zle_Qle. }
  apply (Qdiv_day_mono _ 0) in Hd.
  assert (H0 : (0 / inject_Z (Z.pos msPerDay) == 0)%Q) by reflexivity.
  rewrite H0 in Hd. apply roundQ_nonpos in Hd.
  apply (Qceiling_resp_le _ (inject_Z 0)) in Hd.
  by rewrite Qceiling_Z in Hd.
Qed.

Lemma daysCount_positive (d : Z) :
  0 < d →
  1 ≤ Qceiling (roundQ (roundQ (inject_Z d) / inject_Z (Z.pos msPerDay))).
Proof.
  intros H.
  assert (H1 : (1 <= roundQ (inject_Z d))%Q).
  { rewrite <- (roundQ_integer 1) by done.
    apply roundQ_mono. rewrite <- Zle_Qle. lia. }
  apply Qdiv_day_mono, roundQ_mono in H1.
  assert (Hp : (0 < roundQ (1 / inject_Z (Z.pos msPerDay)))%Q)
    by (vm_compute; reflexivity).
  pose proof (Qle_ceiling
                (roundQ (roundQ (inject_Z d) / inject_Z (Z.pos msPerDay))))
    as Hc.
  set (c := Qceiling _) in *.
  assert (Hc0 : (inject_Z 0 < inject_Z c)%Q).
  { change (inject_Z 0) with 0%Q. lra. }
  rewrite <- Zlt_Qlt in Hc0. lia.
Qed.

Lemma round_zero : round 0 = num 0.
Proof. vm_compute. reflexivity. Qed.

Lemma number_mul_mono (q : Q) (d1 d2 : Z) :
  (0 <= q)%Q → d1 ≤ d2 →
  number_le (number_mul (Finite q) (num d1)) (number_mul (Finite q) (num d2)).
Proof.
  intros Hq Hd. simpl. apply round_mono.
  rewrite !(Qmult_comm q). apply Qmult_le_compat_r; [|done].
  by rewrite <- Zle_Qle.
Qed.

(** From the first to the last instant a [Date] can hold there are
    199999999 whole days and one millisecond more: the difference is above
    [2^53], is rounded down by one millisecond, and 199999999 nights are
    charged where the ceiling is 200000000. *)
Lemma calculateTotalPrice_not_ceiling_for_longest_stay :
  calculateTotalPrice (num 1) (-8640000000000000) 8639999913600001
    = num 199999999
  ∧ ¬ priceIsCeiling 1 (-8640000000000000) 8639999913600001.
Proof.
  assert (Hprice :
    calculateTotalPrice (num 1) (-8640000000000000) 8639999913600001
    = num 199999999) by (vm_compute; reflexivity).
  split; [exact Hprice|].
  intros (days & Hdays & _ & Hhi). rewrite Hprice in Hdays.
  assert (Hd : 199999999 = 1 * days) by (by injection Hdays).
  revert Hhi. rewrite <- (Z.mul_1_l days), <- Hd. vm_compute. tauto.
Qed.

(** C6: when the length of the stay in milliseconds is a safe integer,
    [calculateTotalPrice] is the nightly price times the number of days of the
    stay rounded up to a whole number, the least [days] with
    [checkOut - checkIn ≤ days * 1 day], as one multiplication of doubles; for
    an integer price whose product with the days is a safe integer that is the
    exact product.  Three whole days at 100 cost 300 and half a day costs
    100. *)
Theorem calculateTotalPrice_ceiling :
  (∀ pricePerNight ci co,
      safeInteger (co - ci) →
      ∃ days,
        Z.pos msPerDay * (days - 1) < co - ci
        ∧ co - ci ≤ Z.pos msPerDay * days
        ∧ calculateTotalPrice pricePerNight ci co
          = number_mul pricePerNight (num days)
        ∧ ∀ p, pricePerNight = num p → safeInteger (p * days) →
            calculateTotalPrice pricePerNight ci co = num (p * days))
  ∧ calculateTotalPrice (num 100) (day 0) (day 3) = num 300
  ∧ calculateTotalPrice (num 100) (day 0) (day 0 + halfDay) = num 100.
Proof.
  split; [|split; vm_compute; reflexivity].
  intros pricePerNight ci co Hsafe.
  exists (- (- (co - ci) / Z.pos msPerDay)).
  destruct (ceiling_days (co - ci)) as [Hlo Hhi].
  split; [exact Hlo|]. split; [exact Hhi|].
  split; [by apply calculateTotalPrice_safe|].
  intros p -> Hp. rewrite calculateTotalPrice_safe by done.
  by apply number_mul_safe.
Qed.

Lemma calculateTotalPrice_ceiling_witness :
  ∃ days,
    Z.pos msPerDay * (days - 1) < day 2 + 1 - day 0
    ∧ calculateTotalPrice (num 70) (day 0) (day 2 + 1) = num (70 * days).
Proof.
  destruct (proj1 calculateTotalPrice_ceiling (num 70) (day 0) (day 2 + 1))
    as (days & Hlo & Hhi & _ & Hexact).
  - unfold safeInteger. vm_compute. reflexivity.
  - exists days. split; [exact Hlo|].
    apply (Hexact 70 eq_refl). unfold safeInteger.
    assert (HD : Z.pos msPerDay = 86400000) by reflexivity.
    unfold day in Hlo, Hhi. rewrite HD in Hlo, Hhi.
    assert (H53 : 2 ^ 53 = 9007199254740992) by reflexivity. lia.
Defined.

(** ** Access control *)

(** C8: on an existing booking, [getBookingById] and [cancelBooking] throw the
    access error exactly when the caller is not the owner and the role is
    neither admin nor manager; otherwise [getBookingById] returns the booking
    and [cancelBooking] goes on to its date test. *)
Theorem access_check (now : Z) (db : DB) (id userId : Z) (userRole : string)
    (b : Booking) :
  bookings db !! id = Some b →
  (failsWith Forbidden (getBookingById db id userId userRole) ↔
     UserId b ≠ userId ∧ userRole ≠ "admin" ∧ userRole ≠ "manager")
  ∧ (failsWith Forbidden (cancelBooking now db id userId userRole) ↔
     UserId b ≠ userId ∧ userRole ≠ "admin" ∧ userRole ≠ "manager")
  ∧ (UserId b = userId ∨ userRole = "admin" ∨ userRole = "manager" →
     getBookingById db id userId userRole = Return b).
Proof.
  intros Hb. unfold failsWith, getBookingById, cancelBooking, Booking_findByPk.
  rewrite Hb, <- accessDenied_true.
  destruct (accessDenied b userId userRole) eqn:Hd.
  - split; [|split].
    + split; [done|]. intros _. by exists AccessDenied.
    + split; [done|]. intros _. by exists AccessDenied.
    + intros Hauth. apply accessDenied_false in Hauth. congruence.
  - split; [|split]; [| |done].
    + split; [|done]. by intros (e & [= <-] & _).
    + split; [|done]. destruct (now >? checkIn b).
      * by intros (e & [= <-] & [=]).
      * by intros (e & [=] & _).
Qed.

Lemma access_check_witness :
  failsWith Forbidden (getBookingById sampleDB 1 8 "guest")
  ∧ failsWith Forbidden (cancelBooking 0 sampleDB 1 8 "guest")
  ∧ getBookingById sampleDB 1 8 "manager"
    = Return (mkBooking 1 7 0 10 (num 1000) "pending").
Proof.
  pose proof (access_check 0 sampleDB 1 8 "guest" _ eq_refl) as (Hget & Hcancel & _).
  pose proof (access_check 0 sampleDB 1 8 "manager" _ eq_refl) as (_ & _ & Hstaff).
  split; [|split].
  - apply Hget. by repeat split.
  - apply Hcancel. by repeat split.
  - apply Hstaff. right. by right.
Defined.

(** ** Status changes *)

(** C7: for an existing booking and an authorized caller, [cancelBooking]
    throws a conflict error when the clock is past the check-in date; when the
    check-in date is still ahead it returns the booking with status canceled,
    every other attribute and every other row unchanged. *)
Theorem cancelBooking_window (now : Z) (db : DB) (id userId : Z)
    (userRole : string) (b : Booking) :
  bookings db !! id = Some b →
  authorized b userId userRole →
  (checkIn b < now → failsWith Conflict (cancelBooking now db id userId userRole))
  ∧ (now < checkIn b →
     ∃ b' db', cancelBooking now db id userId userRole = Return (b', db')
       ∧ status b' = "canceled" ∧ sameExceptStatus b b'
       ∧ rowReplaced db id b' db').
Proof.
  intros Hb Hauth. apply accessDenied_false in Hauth.
  unfold cancelBooking, Booking_findByPk. rewrite Hb, Hauth.
  destruct (Z.gtb_spec now (checkIn b)) as [Hgt|Hle].
  - split; [|lia]. intros _. by exists CancelAfterCheckIn.
  - split; [lia|]. intros _. eexists _, _. split; [reflexivity|].
    by repeat split.
Qed.

Lemma cancelBooking_window_witness :
  failsWith Conflict (cancelBooking 5 sampleDB 1 7 "guest")
  ∧ ∃ b' db', cancelBooking (-5) sampleDB 1 7 "guest" = Return (b', db')
      ∧ status b' = "canceled"
      ∧ sameExceptStatus (mkBooking 1 7 0 10 (num 1000) "pending") b'
      ∧ rowReplaced sampleDB 1 b' db'.
Proof.
  split.
  - apply (cancelBooking_window 5 sampleDB 1 7 "guest" _ eq_refl);
      [by left | reflexivity].
  - apply (cancelBooking_window (-5) sampleDB 1 7 "guest" _ eq_refl);
      [by left | reflexivity].
Defined.

(** C9: [updateBookingStatus] throws not-found when no booking has the id; on
    an existing booking it throws a validation error exactly when the status
    is none of pending, confirmed, canceled, completed, and otherwise writes
    the new status whatever the current one is, leaving every other attribute
    and every other row unchanged. *)
Theorem updateBookingStatus_spec (db : DB) (id : Z) (s : string) :
  (bookings db !! id = None → failsWith NotFound (updateBookingStatus db id s))
  ∧ (∀ b, bookings db !! id = Some b →
       (failsWith Validation (updateBookingStatus db id s) ↔
          ¬ (s = "pending" ∨ s = "confirmed" ∨ s = "canceled" ∨ s = "completed"))
       ∧ (s = "pending" ∨ s = "confirmed" ∨ s = "canceled" ∨ s = "completed" →
          ∃ b' db', updateBookingStatus db id s = Return (b', db')
            ∧ status b' = s ∧ sameExceptStatus b b' ∧ rowReplaced db id b' db')).
Proof.
  unfold failsWith, updateBookingStatus, Booking_findByPk. split.
  - intros ->. by exists BookingNotFound.
  - intros b ->.
    assert (Hin : s ∈ allowedStatuses ↔
      s = "pending" ∨ s = "confirmed" ∨ s = "canceled" ∨ s = "completed").
    { unfold allowedStatuses. rewrite !elem_of_cons, elem_of_nil. tauto. }
    rewrite <- Hin. destruct (decide (s ∈ allowedStatuses)) as [Hs|Hs].
    + rewrite bool_decide_eq_true_2 by done. simpl. split.
      * split; [|done]. by intros (e & [=] & _).
      * intros _. eexists _, _. split; [reflexivity|]. by repeat split.
    + rewrite bool_decide_eq_false_2 by done. simpl. split; [|done].
      split; [done|]. intros _. by exists InvalidStatus.
Qed.

Lemma updateBookingStatus_spec_witness :
  failsWith NotFound (updateBookingStatus sampleDB 3 "confirmed")
  ∧ failsWith Validation (updateBookingStatus sampleDB 2 "cancelled")
  ∧ ∃ b' db', updateBookingStatus sampleDB 2 "pending" = Return (b', db')
      ∧ status b' = "pending"
      ∧ sameExceptStatus (mkBooking 1 8 0 10 (num 1000) "canceled") b'
      ∧ rowReplaced sampleDB 2 b' db'.
Proof.
  split; [|split].
  - by apply (proj1 (updateBookingStatus_spec sampleDB 3 "confirmed")).
  - apply (proj2 (updateBookingStatus_spec sampleDB 2 "cancelled") _ eq_refl).
    by intros [|[|[|]]].
  - apply (proj2 (updateBookingStatus_spec sampleDB 2 "pending") _ eq_refl).
    by left.
Defined.

(** ** Creating a booking *)

(** [createBooking] by cases on the room lookup and on the availability check;
    the attributes of the object literal always satisfy the model. *)
Lemma createBooking_cases (db : DB) (data : bookingData.t) (userId : Z) :
  createBooking db data userId =
  match rooms db !! bookingData.roomId data with
  | None => Throw RoomNotFound
  | Some room =>
      match checkRoomAvailability db (bookingData.roomId data)
              (bookingData.checkIn data) (bookingData.checkOut data) with
      | Throw e => Throw e
      | Return false => Throw RoomNotAvailable
      | Return true =>
          let id := lastId (bookings db) + 1 in
          let b := pendingBooking data userId room in
          Return (id, b, mkDB (rooms db) (<[id := b]> (bookings db)))
      end
  end.
Proof.
  unfold createBooking, Room_findByPk.
  destruct (rooms db !! bookingData.roomId data) as [room|]; [|done]. simpl.
  destruct (checkRoomAvailability _ _ _ _) as [[]|e]; [|done|done]. simpl.
  unfold Booking_create, bookingData.properties.
  by repeat (rewrite lookup_insert_eq || rewrite lookup_insert_ne by done).
Qed.

(** C1: when the room exists and an active booking of it conflicts with the
    requested stay under the inclusive-boundary rule, [createBooking] throws
    the conflict error and stores nothing. *)
Theorem createBooking_conflict (db : DB) (data : bookingData.t) (userId : Z)
    (room : Room) (id : Z) (b : Booking) :
  rooms db !! bookingData.roomId data = Some room →
  bookingData.checkIn data < bookingData.checkOut data →
  bookings db !! id = Some b →
  RoomId b = bookingData.roomId data →
  status b = "pending" ∨ status b = "confirmed" →
  conflicts b (bookingData.checkIn data) (bookingData.checkOut data) →
  failsWith Conflict (createBooking db data userId)
  ∧ stateAfter db (createBooking db data userId) = db.
Proof.
  intros Hroom Hlt Hb Hr Ha Hc.
  assert (Hcheck : checkRoomAvailability db (bookingData.roomId data)
            (bookingData.checkIn data) (bookingData.checkOut data) = Return false).
  { apply checkRoomAvailability_Return. split; [done|]. split; [|done].
    intros _. exists id, b. by repeat split. }
  rewrite createBooking_cases, Hroom, Hcheck. split; [|done].
  by exists RoomNotAvailable.
Qed.

(** The booking of [sampleDB] ends on day 10, the day the request checks in. *)
Lemma createBooking_conflict_witness :
  failsWith Conflict (createBooking sampleDB (bookingData.mk 1 10 20 ∅) 9)
  ∧ stateAfter sampleDB (createBooking sampleDB (bookingData.mk 1 10 20 ∅) 9)
    = sampleDB.
Proof.
  apply (createBooking_conflict sampleDB (bookingData.mk 1 10 20 ∅) 9
           (mkRoom (num 100)) 1 (mkBooking 1 7 0 10 (num 1000) "pending"));
    [reflexivity | reflexivity | reflexivity | reflexivity | by left |].
  right. left. split; simpl; lia.
Defined.

(** A request whose check-out is not after its check-in, for an existing room:
    the check neither answers "unavailable" nor lets the booking through. *)
Lemma threeOutcomes_fails_on_empty_stay :
  createBooking sampleDB (bookingData.mk 1 20 20 ∅) 9
    = Throw CheckOutNotAfterCheckIn
  ∧ ¬ threeOutcomes sampleDB (bookingData.mk 1 20 20 ∅) 9.
Proof.
  split; [reflexivity|].
  intros [_ Hroom].
  destruct (Hroom (mkRoom (num 100)) eq_refl) as [_ Hstore].
  destruct Hstore as (id & b & Hr & _); [discriminate|].
  discriminate Hr.
Qed.

(** C4: [createBooking] throws not-found when the room does not exist;
    otherwise a validation error when check-out is not after check-in;
    otherwise a conflict error when the availability check answers
    "unavailable"; otherwise it stores exactly one new booking, pending, owned
    by the caller and priced by [calculateTotalPrice], and returns it; the
    price is the nightly price times the whole days of the stay rounded up,
    multiplied as doubles, when the length of the stay in milliseconds is a
    safe integer.  The dates of the request are valid dates. *)
Theorem createBooking_steps (db : DB) (data : bookingData.t) (userId : Z) :
  let r := createBooking db data userId in
  let check := checkRoomAvailability db (bookingData.roomId data)
                 (bookingData.checkIn data) (bookingData.checkOut data) in
  (rooms db !! bookingData.roomId data = None → failsWith NotFound r)
  ∧ (∀ room, rooms db !! bookingData.roomId data = Some room →
       (bookingData.checkIn data >= bookingData.checkOut data →
        failsWith Validation r)
       ∧ (bookingData.checkIn data < bookingData.checkOut data →
          check = Return false → failsWith Conflict r)
       ∧ (bookingData.checkIn data < bookingData.checkOut data →
          check ≠ Return false → persistsPending db data userId room r)).
Proof.
  intros r check. subst r check. rewrite createBooking_cases. split.
  - intros ->. by exists RoomNotFound.
  - intros room ->. split; [|split].
    + intros Hge. unfold checkRoomAvailability.
      destruct (Z.geb_spec (bookingData.checkIn data) (bookingData.checkOut data));
        [|lia].
      by exists CheckOutNotAfterCheckIn.
    + intros _ ->. by exists RoomNotAvailable.
    + intros Hlt Hcheck.
      destruct (checkRoomAvailability _ _ _ _) as [[]|e] eqn:Hc; [|done|].
      * exists (lastId (bookings db) + 1), (pendingBooking data userId room).
        split; [done|]. split; [apply lastId_fresh|].
        split; [done|]. split; [done|]. split; [done|].
        intros Hsafe.
        exists (- (- (bookingData.checkOut data - bookingData.checkIn data)
                   / Z.pos msPerDay)).
        destruct (ceiling_days
                    (bookingData.checkOut data - bookingData.checkIn data))
          as [Hlo Hhi].
        split; [exact Hlo|]. split; [exact Hhi|].
        by apply calculateTotalPrice_safe.
      * unfold checkRoomAvailability in Hc.
        destruct (Z.geb_spec (bookingData.checkIn data)
                    (bookingData.checkOut data)); [lia|discriminate].
Qed.

Lemma createBooking_steps_witness :
  failsWith NotFound (createBooking sampleDB (bookingData.mk 2 11 20 ∅) 9)
  ∧ failsWith Validation (createBooking sampleDB (bookingData.mk 1 20 20 ∅) 9)
  ∧ failsWith Conflict (createBooking sampleDB (bookingData.mk 1 10 20 ∅) 9)
  ∧ persistsPending sampleDB (bookingData.mk 1 11 20 ∅) 9 (mkRoom (num 100))
      (createBooking sampleDB (bookingData.mk 1 11 20 ∅) 9).
Proof.
  split; [|split; [|split]].
  - by apply (proj1 (createBooking_steps sampleDB (bookingData.mk 2 11 20 ∅) 9)).
  - by apply (proj2 (createBooking_steps sampleDB (bookingData.mk 1 20 20 ∅) 9)
                (mkRoom (num 100)) eq_refl).
  - by apply (proj2 (createBooking_steps sampleDB (bookingData.mk 1 10 20 ∅) 9)
                (mkRoom (num 100)) eq_refl).
  - by apply (proj2 (createBooking_steps sampleDB (bookingData.mk 1 11 20 ∅) 9)
                (mkRoom (num 100)) eq_refl).
Defined.

(** C10: the booking stored by a successful [createBooking] is owned by the
    caller, pending, and priced from the nightly price of the room, and the
    call returns the same booking and database whatever other properties,
    [UserId], [status] and [totalPrice] included, the request object carries. *)
Theorem createBooking_ignores_supplied_fields (db : DB) (data : bookingData.t)
    (userId id : Z) (b : Booking) (db' : DB) :
  createBooking db data userId = Return (id, b, db') →
  UserId b = userId
  ∧ status b = "pending"
  ∧ (∃ room, rooms db !! bookingData.roomId data = Some room
       ∧ totalPrice b = calculateTotalPrice (price room)
                          (bookingData.checkIn data) (bookingData.checkOut data))
  ∧ bookings db' !! id = Some b
  ∧ ∀ others',
      createBooking db
        (bookingData.mk (bookingData.roomId data) (bookingData.checkIn data)
           (bookingData.checkOut data) others') userId
      = Return (id, b, db').
Proof.
  intros Hcreate.
  assert (Hsame : ∀ others', createBooking db
            (bookingData.mk (bookingData.roomId data) (bookingData.checkIn data)
               (bookingData.checkOut data) others') userId
          = createBooking db data userId).
  { intros others'. by rewrite !createBooking_cases. }
  rewrite createBooking_cases in Hcreate.
  destruct (rooms db !! bookingData.roomId data) as [room|] eqn:Hroom; [|done].
  destruct (checkRoomAvailability _ _ _ _) as [[]|e] eqn:Hcheck; [|done|done].
  simpl in Hcreate. injection Hcreate as <- <- <-.
  split; [done|]. split; [done|]. split; [by exists room|]. split.
  - simpl. apply lookup_insert_eq.
  - intros others'. rewrite Hsame, createBooking_cases, Hroom, Hcheck. done.
Qed.

(** A request that names another owner, a confirmed status and a price of 0. *)
Lemma createBooking_ignores_supplied_fields_witness :
  ∃ id b db',
    createBooking sampleDB
      (bookingData.mk 1 (day 11) (day 13)
         {[ "UserId" := VNum 7; "status" := VStr "confirmed";
            "totalPrice" := VNum 0 ]}) 9
    = Return (id, b, db')
    ∧ UserId b = 9 ∧ status b = "pending" ∧ totalPrice b = num 200.
Proof.
  eexists _, _, _. split; [reflexivity|].
  pose proof (createBooking_ignores_supplied_fields sampleDB
                (bookingData.mk 1 (day 11) (day 13)
                   {[ "UserId" := VNum 7; "status" := VStr "confirmed";
                      "totalPrice" := VNum 0 ]}) 9 _ _ _ eq_refl)
    as (Hu & Hs & (room & Hroom & Hp) & _).
  split; [exact Hu|]. split; [exact Hs|].
  injection Hroom as <-. exact Hp.
Defined.

(** ** The double-booking invariant *)

Lemma overlap_conflicts (b b' : Booking) :
  overlap b' b → conflicts b (checkIn b') (checkOut b').
Proof.
  unfold overlap, conflicts, startsWithin, endsWithin, contains. lia.
Qed.

Lemma overlap_sym (b1 b2 : Booking) : overlap b1 b2 → overlap b2 b1.
Proof. unfold overlap. lia. Qed.

Lemma createBooking_preserves (db : DB) (data : bookingData.t) (userId : Z) :
  noDoubleBooking db →
  noDoubleBooking (stateAfter db (createBooking db data userId)).
Proof.
  intros Hinv. rewrite createBooking_cases.
  destruct (rooms db !! bookingData.roomId data) as [room|]; [|done].
  destruct (checkRoomAvailability _ _ _ _) as [[]|e] eqn:Hcheck; [|done|done].
  apply checkRoomAvailability_Return in Hcheck as [Hlt Hnone].
  assert (Hclash : ∀ j b2, bookings db !! j = Some b2 →
            RoomId b2 = bookingData.roomId data → isActive b2 →
            ¬ overlap (pendingBooking data userId room) b2).
  { intros j b2 H2 Hr A2 Hov. apply overlap_conflicts in Hov.
    enough (true = false) by done. apply Hnone. exists j, b2. by repeat split. }
  simpl. intros i j b1 b2 Hij H1 H2 Hr A1 A2 Hov. simpl in H1, H2.
  apply lookup_insert_Some in H1 as [[<- <-]|[Hi H1]];
    apply lookup_insert_Some in H2 as [[<- <-]|[Hj H2]].
  - done.
  - by eapply (Hclash j b2).
  - apply overlap_sym in Hov. by eapply (Hclash i b1).
  - by eapply (Hinv i j b1 b2).
Qed.

(** Writing a status into a row keeps the invariant when the row does not
    become active by it. *)
Lemma Booking_update_preserves (db : DB) (id : Z) (b : Booking) (s : string) :
  bookings db !! id = Some b →
  (isActive (setStatus s b) → isActive b) →
  noDoubleBooking db →
  noDoubleBooking (Booking_update db id b s).2.
Proof.
  intros Hb Hact Hinv i j b1 b2 Hij H1 H2 Hr A1 A2 Hov. simpl in H1, H2.
  apply lookup_insert_Some in H1 as [[<- <-]|[Hi H1]];
    apply lookup_insert_Some in H2 as [[<- <-]|[Hj H2]].
  - done.
  - by eapply (Hinv id j b b2); eauto.
  - by eapply (Hinv i id b1 b); eauto.
  - by eapply (Hinv i j b1 b2).
Qed.

Lemma cancelBooking_preserves (now : Z) (db : DB) (id userId : Z)
    (userRole : string) :
  noDoubleBooking db →
  noDoubleBooking (stateAfter db (cancelBooking now db id userId userRole)).
Proof.
  intros Hinv. unfold cancelBooking, Booking_findByPk.
  destruct (bookings db !! id) as [b|] eqn:Hb; [|done].
  destruct (accessDenied b userId userRole); [done|].
  destruct (now >? checkIn b); [done|].
  apply (Booking_update_preserves db id b "canceled" Hb); [|done].
  by intros [|].
Qed.

Lemma updateBookingStatus_preserves (db : DB) (id : Z) (s : string) :
  ¬ revives db (UpdateBookingStatus id s) →
  noDoubleBooking db →
  noDoubleBooking (stateAfter db (updateBookingStatus db id s)).
Proof.
  intros Hno Hinv. unfold updateBookingStatus, Booking_findByPk.
  destruct (bookings db !! id) as [b|] eqn:Hb; [|done].
  destruct (negb _); [done|].
  apply (Booking_update_preserves db id b s Hb); [|done].
  intros Hs. destruct (decide (isActive b)) as [|Hb']; [done|].
  destruct Hno. split; [exact Hs|]. by exists b.
Qed.

Lemma sampleDB_noDoubleBooking : noDoubleBooking sampleDB.
Proof.
  intros i j b1 b2 Hij H1 H2 _ A1 A2 _. simpl in H1, H2.
  apply lookup_insert_Some in H1 as [[<- <-]|[Hi H1]];
    apply lookup_insert_Some in H2 as [[<- <-]|[Hj H2]]; [done| | |].
  - apply lookup_singleton_Some in H2 as [_ <-]. by destruct A2.
  - apply lookup_singleton_Some in H1 as [_ <-]. by destruct A1.
  - apply lookup_singleton_Some in H1 as [_ <-]. by destruct A1.
Qed.

(** Booking 2 of [sampleDB] is canceled and covers the days of the pending
    booking 1 of the same room; setting it to confirmed is accepted. *)
Lemma updateBookingStatus_breaks_noDoubleBooking :
  noDoubleBooking sampleDB
  ∧ ¬ noDoubleBooking (run sampleDB [UpdateBookingStatus 2 "confirmed"]).
Proof.
  split; [apply sampleDB_noDoubleBooking|].
  intros Hinv.
  apply (Hinv 1 2 (mkBooking 1 7 0 10 (num 1000) "pending")
              (mkBooking 1 8 0 10 (num 1000) "confirmed"));
    [done | reflexivity | reflexivity | reflexivity | by left | by right |].
  unfold overlap. simpl. lia.
Qed.

(** C2: starting from a database in which no two pending or confirmed bookings
    of one room overlap, every sequential execution of [createBooking],
    [cancelBooking] and [updateBookingStatus] in which no status update makes
    a canceled or completed booking pending or confirmed again ends in such a
    database. *)
Theorem noDoubleBooking_preserved (calls : list call) (db : DB) :
  noDoubleBooking db →
  neverRevives db calls →
  noDoubleBooking (run db calls).
Proof.
  revert db. induction calls as [|c calls IH]; intros db Hinv Hnever; [done|].
  destruct Hnever as [Hno Hnever]. simpl. apply IH; [|done].
  destruct c as [data userId|now id userId userRole|id s]; simpl.
  - by apply createBooking_preserves.
  - by apply cancelBooking_preserves.
  - by apply updateBookingStatus_preserves.
Qed.

Lemma noDoubleBooking_preserved_witness :
  noDoubleBooking
    (run sampleDB [CreateBooking (bookingData.mk 1 11 20 ∅) 9;
                   CancelBooking (-5) 1 7 "guest";
                   UpdateBookingStatus 3 "confirmed";
                   UpdateBookingStatus 2 "completed"]).
Proof.
  apply noDoubleBooking_preserved; [apply sampleDB_noDoubleBooking|].
  simpl. split; [tauto|]. split; [tauto|]. split; [|split; [|done]].
  - intros [_ (b & Hb & Hn)]. vm_compute in Hb. injection Hb as <-.
    apply Hn. by left.
  - by intros [[|] _].
Defined.

(** ** Listings *)

Lemma filter_everything {A : Type} (P : A → Prop) `{!∀ x, Decision (P x)}
    (l : list A) :
  (∀ x, P x) → filter P l = l.
Proof.
  intros HP. induction l as [|x l IH]; [done|].
  rewrite filter_cons_True by done. by rewrite IH.
Qed.

Lemma Booking_findAll_elem (createdAt : Z → Z) (db : DB) (w : whereClause)
    (id : Z) (b : Booking) :
  (id, b) ∈ Booking_findAll createdAt db w ↔
  bookings db !! id = Some b ∧ matches w b = true.
Proof.
  unfold Booking_findAll.
  rewrite merge_sort_Permutation, list_elem_of_filter, elem_of_map_to_list.
  simpl. tauto.
Qed.

Lemma Booking_findAll_sorted (createdAt : Z → Z) (db : DB) (w : whereClause) :
  StronglySorted (newerFirst createdAt) (Booking_findAll createdAt db w).
Proof.
  assert (Transitive (newerFirst createdAt)).
  { intros x y z. unfold newerFirst. lia. }
  assert (Total (newerFirst createdAt)).
  { intros x y. unfold newerFirst. lia. }
  apply StronglySorted_merge_sort; apply _.
Qed.

Lemma Booking_findAll_NoDup (createdAt : Z → Z) (db : DB) (w : whereClause) :
  NoDup (Booking_findAll createdAt db w).*1.
Proof.
  unfold Booking_findAll. rewrite merge_sort_Permutation.
  eapply sublist_NoDup; [apply (NoDup_fst_map_to_list (bookings db))|].
  apply fmap_sublist, sublist_filter.
Qed.

Lemma getUserBookings_elem (createdAt : Z → Z) (db : DB) (userId id : Z)
    (b : Booking) (r : option Room) :
  (id, b, r) ∈ getUserBookings createdAt db userId ↔
  bookings db !! id = Some b ∧ UserId b = userId ∧ r = rooms db !! RoomId b.
Proof.
  unfold getUserBookings, Room_findByPk. rewrite list_elem_of_fmap. split.
  - intros ([id' b'] & [= -> -> ->] & Hin).
    apply Booking_findAll_elem in Hin as [Hb Hm]. simpl in Hm.
    apply bool_decide_eq_true in Hm. simpl in Hm. by injection Hm as <-.
  - intros (Hb & <- & ->). exists (id, b). split; [done|].
    apply Booking_findAll_elem. split; [done|].
    simpl. by apply bool_decide_eq_true.
Qed.

(** X1: [getUserBookings] returns exactly the bookings whose owner is the
    given user, each once and with the room it refers to, the booking created
    later first. *)
Theorem getUserBookings_own_bookings_newest_first (createdAt : Z → Z) (db : DB)
    (userId : Z) :
  (∀ id b r, (id, b, r) ∈ getUserBookings createdAt db userId ↔
     bookings db !! id = Some b ∧ UserId b = userId
     ∧ r = rooms db !! RoomId b)
  ∧ NoDup ((λ x, x.1.1) <$> getUserBookings createdAt db userId)
  ∧ StronglySorted (λ x y, createdAt y.1.1 ≤ createdAt x.1.1)
      (getUserBookings createdAt db userId).
Proof.
  split; [|split].
  - intros id b r. apply getUserBookings_elem.
  - unfold getUserBookings. rewrite <- list_fmap_compose.
    apply Booking_findAll_NoDup.
  - unfold getUserBookings.
    eapply StronglySorted_fmap; [|apply Booking_findAll_sorted]. done.
Qed.

(** X2: [getAllBookings] returns every booking of the table exactly once,
    with its room and the selected columns of its owner, the booking created
    later first. *)
Theorem getAllBookings_every_booking_newest_first (createdAt : Z → Z)
    (users : gmap Z User) (db : DB) :
  (∀ id b r u, (id, b, r, u) ∈ getAllBookings createdAt users db ↔
     bookings db !! id = Some b ∧ r = rooms db !! RoomId b
     ∧ u = users !! UserId b)
  ∧ length (getAllBookings createdAt users db) = size (bookings db)
  ∧ NoDup ((λ x, x.1.1.1) <$> getAllBookings createdAt users db)
  ∧ StronglySorted (λ x y, createdAt y.1.1.1 ≤ createdAt x.1.1.1)
      (getAllBookings createdAt users db).
Proof.
  unfold getAllBookings, Room_findByPk. split; [|split; [|split]].
  - intros id b r u. rewrite list_elem_of_fmap. split.
    + intros ([id' b'] & [= -> -> -> ->] & Hin).
      by apply Booking_findAll_elem in Hin as [Hb _].
    + intros (Hb & -> & ->). exists (id, b). split; [done|].
      by apply Booking_findAll_elem.
  - rewrite length_fmap. unfold Booking_findAll.
    rewrite merge_sort_Permutation.
    rewrite filter_everything by done. apply length_map_to_list.
  - rewrite <- list_fmap_compose. apply Booking_findAll_NoDup.
  - eapply StronglySorted_fmap; [|apply Booking_findAll_sorted]. done.
Qed.

(** X3: after a successful [createBooking] the new booking is in the listing
    of its creator, with the room it was made for, and the listing of every
    user has the entries it had before and no other. *)
Theorem createBooking_then_getUserBookings (createdAt : Z → Z) (db : DB)
    (data : bookingData.t) (userId id : Z) (b : Booking) (db' : DB) :
  createBooking db data userId = Return (id, b, db') →
  (id, b, rooms db !! bookingData.roomId data)
    ∈ getUserBookings createdAt db' userId
  ∧ ∀ userId' x,
      x ∈ getUserBookings createdAt db' userId' ↔
      x ∈ getUserBookings createdAt db userId'
      ∨ (userId' = userId ∧ x = (id, b, rooms db !! bookingData.roomId data)).
Proof.
  intros Hcreate. rewrite createBooking_cases in Hcreate.
  destruct (rooms db !! bookingData.roomId data) as [room|] eqn:Hroom; [|done].
  destruct (checkRoomAvailability _ _ _ _) as [[]|e]; [|done|done].
  simpl in Hcreate. injection Hcreate as <- <- <-.
  pose proof (lastId_fresh (bookings db)) as Hfresh.
  assert (Hall : ∀ userId' x,
      x ∈ getUserBookings createdAt
            (mkDB (rooms db)
               (<[lastId (bookings db) + 1 := pendingBooking data userId room]>
                  (bookings db))) userId' ↔
      x ∈ getUserBookings createdAt db userId'
      ∨ (userId' = userId
         ∧ x = (lastId (bookings db) + 1, pendingBooking data userId room,
                Some room))).
  { intros userId' [[j bj] r]. rewrite !getUserBookings_elem. simpl.
    rewrite lookup_insert_Some. split.
    - intros ([[<- <-]|[Hj Hbj]] & Hu & ->).
      + right. simpl in *. by rewrite Hroom.
      + left. done.
    - intros [(Hbj & Hu & ->)|[-> [= -> -> ->]]].
      + split; [|done]. right. split; [|done]. intros <-. congruence.
      + simpl. rewrite Hroom. split; [|done]. by left. }
  split; [|exact Hall]. apply Hall. by right.
Qed.

Lemma createBooking_then_getUserBookings_witness :
  (3, mkBooking 1 9 11 20 (num 100) "pending", Some (mkRoom (num 100)))
    ∈ getUserBookings (λ id, id)
        (stateAfter sampleDB
           (createBooking sampleDB (bookingData.mk 1 11 20 ∅) 9)) 9.
Proof.
  exact (proj1 (createBooking_then_getUserBookings (λ id, id) sampleDB
                  (bookingData.mk 1 11 20 ∅) 9 _ _ _ eq_refl)).
Defined.

(** ** More on availability *)

Lemma conflicts_touches (b : Booking) (ci co : Z) :
  ci < co → checkIn b ≤ checkOut b →
  conflicts b ci co ↔ touches b ci co.
Proof.
  unfold conflicts, startsWithin, endsWithin, contains, touches. lia.
Qed.

Lemma conflicts_wider (b : Booking) (ci co ci' co' : Z) :
  ci ≤ ci' → ci' < co' → co' ≤ co →
  conflicts b ci' co' → conflicts b ci co.
Proof.
  unfold conflicts, startsWithin, endsWithin, contains. lia.
Qed.

(** X4: a room that is available for a stay is available for every stay
    inside it. *)
Theorem available_for_shorter_stay (db : DB) (r ci co ci' co' : Z) :
  checkRoomAvailability db r ci co = Return true →
  ci ≤ ci' → ci' < co' → co' ≤ co →
  checkRoomAvailability db r ci' co' = Return true.
Proof.
  intros Hav Hci Hlt Hco.
  apply checkRoomAvailability_Return in Hav as [_ Hnone].
  apply checkRoomAvailability_Return. split; [done|]. split; [done|].
  intros (id & b & Hb & Hr & Ha & Hc). apply Hnone.
  exists id, b. eauto using conflicts_wider.
Qed.

Lemma available_for_shorter_stay_witness :
  checkRoomAvailability sampleDB 1 12 15 = Return true.
Proof.
  apply (available_for_shorter_stay sampleDB 1 11 20 12 15);
    [reflexivity | lia | lia | lia].
Defined.

(** X5: when every stored booking checks out no earlier than it checks in,
    the availability check of a stay with [ci < co] answers "unavailable"
    exactly when some pending or confirmed booking of the room meets the stay,
    end points included: a booking that ends on the day of arrival or starts
    on the day of departure blocks the stay. *)
Theorem unavailable_iff_touching (db : DB) (r ci co : Z) :
  ci < co →
  (∀ id b, bookings db !! id = Some b → checkIn b ≤ checkOut b) →
  (checkRoomAvailability db r ci co = Return false ↔
   ∃ id b, bookings db !! id = Some b ∧ RoomId b = r ∧ isActive b
           ∧ ci ≤ checkOut b ∧ checkIn b ≤ co).
Proof.
  intros Hlt Hord. rewrite checkRoomAvailability_Return. split.
  - intros [_ Hv]. destruct (proj1 Hv eq_refl) as (id & b & Hb & Hr & Ha & Hc).
    exists id, b. apply conflicts_touches in Hc; [|done|by eapply Hord].
    by destruct Hc.
  - intros (id & b & Hb & Hr & Ha & Hco & Hci). split; [done|].
    split; [|done]. intros _. exists id, b. repeat split; try done.
    apply conflicts_touches; [done|by eapply Hord|by split].
Qed.

Lemma unavailable_iff_touching_witness :
  checkRoomAvailability sampleDB 1 (-5) 0 = Return false.
Proof.
  apply (unavailable_iff_touching sampleDB 1 (-5) 0); [lia| |].
  - intros id b Hb. simpl in Hb.
    apply lookup_insert_Some in Hb as [[_ <-]|[_ Hb]]; [simpl; lia|].
    apply lookup_singleton_Some in Hb as [_ <-]. simpl. lia.
  - exists 1, (mkBooking 1 7 0 10 (num 1000) "pending").
    split; [reflexivity|]. split; [reflexivity|]. split; [by left|].
    simpl. lia.
Defined.

(** ** What a new booking does to later calls *)

Lemma createBooking_Return (db : DB) (data : bookingData.t) (userId id : Z)
    (b : Booking) (db' : DB) :
  createBooking db data userId = Return (id, b, db') ↔
  ∃ room, rooms db !! bookingData.roomId data = Some room
    ∧ checkRoomAvailability db (bookingData.roomId data)
        (bookingData.checkIn data) (bookingData.checkOut data) = Return true
    ∧ id = lastId (bookings db) + 1
    ∧ b = pendingBooking data userId room
    ∧ db' = mkDB (rooms db) (<[id := b]> (bookings db)).
Proof.
  rewrite createBooking_cases.
  destruct (rooms db !! bookingData.roomId data) as [room|].
  - destruct (checkRoomAvailability _ _ _ _) as [[]|e]; simpl.
    + split.
      * intros [= <- <- <-]. by exists room.
      * by intros (room' & [= <-] & _ & -> & -> & ->).
    + split; [done|]. by intros (? & _ & ? & _).
    + split; [done|]. by intros (? & _ & ? & _).
  - split; [done|]. by intros (? & ? & _).
Qed.

(** X6: once [createBooking] has stored a stay, a later request for the same
    room whose stay meets it, end points included, is refused with the
    conflict error and stores nothing; this holds for the same request sent
    twice and for the stay that starts on the day the first one ends. *)
Theorem createBooking_blocks_touching_request (db : DB) (data : bookingData.t)
    (userId id : Z) (b : Booking) (db' : DB) (data' : bookingData.t)
    (userId' : Z) :
  createBooking db data userId = Return (id, b, db') →
  bookingData.roomId data' = bookingData.roomId data →
  bookingData.checkIn data' < bookingData.checkOut data' →
  bookingData.checkIn data' ≤ bookingData.checkOut data →
  bookingData.checkIn data ≤ bookingData.checkOut data' →
  createBooking db' data' userId' = Throw RoomNotAvailable.
Proof.
  intros Hcreate Hroom' Hlt' H1 H2.
  apply createBooking_Return in Hcreate
    as (room & Hroom & Hav & -> & -> & ->).
  apply checkRoomAvailability_Return in Hav as [Hlt _].
  rewrite createBooking_cases. simpl. rewrite Hroom', Hroom.
  assert (Hcheck : checkRoomAvailability
            (mkDB (rooms db)
               (<[lastId (bookings db) + 1 := pendingBooking data userId room]>
                  (bookings db)))
            (bookingData.roomId data) (bookingData.checkIn data')
            (bookingData.checkOut data') = Return false).
  { apply checkRoomAvailability_Return. split; [done|]. split; [|done].
    intros _. exists (lastId (bookings db) + 1), (pendingBooking data userId room).
    simpl. rewrite lookup_insert_eq. split; [done|]. split; [done|].
    split; [by left|].
    apply conflicts_touches; simpl; [done|lia|]. by split. }
  by rewrite Hcheck.
Qed.

Lemma createBooking_blocks_touching_request_witness :
  createBooking
    (stateAfter sampleDB (createBooking sampleDB (bookingData.mk 1 11 20 ∅) 9))
    (bookingData.mk 1 20 30 ∅) 8
  = Throw RoomNotAvailable.
Proof.
  apply (createBooking_blocks_touching_request sampleDB
           (bookingData.mk 1 11 20 ∅) 9 3 (mkBooking 1 9 11 20 (num 100) "pending")
           (stateAfter sampleDB
              (createBooking sampleDB (bookingData.mk 1 11 20 ∅) 9))
           (bookingData.mk 1 20 30 ∅) 8);
    [reflexivity | reflexivity | simpl; lia | simpl; lia | simpl; lia].
Defined.

(** X7: the booking returned by [createBooking] can be read back under the
    returned id by its creator, whatever the role, is refused to any other
    user who is neither admin nor manager, and every id that was in use
    before still reads as before. *)
Theorem createBooking_then_getBookingById (db : DB) (data : bookingData.t)
    (userId id : Z) (b : Booking) (db' : DB) :
  createBooking db data userId = Return (id, b, db') →
  (∀ userRole, getBookingById db' id userId userRole = Return b)
  ∧ (∀ userId' userRole, userId' ≠ userId →
       userRole ≠ "admin" → userRole ≠ "manager" →
       getBookingById db' id userId' userRole = Throw AccessDenied)
  ∧ (∀ id' userId' userRole, is_Some (bookings db !! id') →
       getBookingById db' id' userId' userRole
       = getBookingById db id' userId' userRole).
Proof.
  intros Hcreate.
  apply createBooking_Return in Hcreate as (room & _ & _ & -> & -> & ->).
  unfold getBookingById, Booking_findByPk. simpl. split; [|split].
  - intros userRole. rewrite lookup_insert_eq.
    replace (accessDenied _ _ _) with false; [done|].
    symmetry. apply accessDenied_false. by left.
  - intros userId' userRole Hu Ha Hm. rewrite lookup_insert_eq.
    replace (accessDenied _ _ _) with true; [done|].
    symmetry. apply accessDenied_true. simpl. split; [congruence|done].
  - intros id' userId' userRole [b' Hb'].
    rewrite lookup_insert_ne; [done|].
    intros <-. pose proof (lastId_fresh (bookings db)). congruence.
Qed.

Lemma createBooking_then_getBookingById_witness :
  getBookingById
    (stateAfter sampleDB (createBooking sampleDB (bookingData.mk 1 11 20 ∅) 9))
    3 9 "guest"
  = Return (mkBooking 1 9 11 20 (num 100) "pending").
Proof.
  exact (proj1 (createBooking_then_getBookingById sampleDB
                  (bookingData.mk 1 11 20 ∅) 9 _ _ _ eq_refl) "guest").
Defined.

(** X8: a successful [createBooking] stores a stay that checks out after it
    checks in, in a room of the Rooms table, and when the nightly price is not
    negative it charges at least the price of one night. *)
Theorem createBooking_stores_valid_row (db : DB) (data : bookingData.t)
    (userId id : Z) (b : Booking) (db' : DB) :
  createBooking db data userId = Return (id, b, db') →
  checkIn b < checkOut b
  ∧ ∃ room, rooms db' !! RoomId b = Some room
      ∧ (number_le (num 0) (price room) →
         number_le (number_mul (price room) (num 1)) (totalPrice b)).
Proof.
  intros Hcreate.
  apply createBooking_Return in Hcreate as (room & Hroom & Hav & -> & -> & ->).
  apply checkRoomAvailability_Return in Hav as [Hlt _]. split; [done|].
  exists room. split; [done|].
  cbn [totalPrice pendingBooking]. unfold calculateTotalPrice.
  pose proof (daysCount_positive
                (bookingData.checkOut data - bookingData.checkIn data)
                ltac:(lia)) as Hdays.
  set (days := Qceiling _) in *. clearbody days.
  destruct (price room) as [q|[]|].
  - intros Hq. by apply (number_mul_mono q 1 days).
  - intros [].
  - intros _. cbn [number_mul num].
    assert (Hpos : (0 < inject_Z days)%Q).
    { change 0%Q with (inject_Z 0). rewrite <- Zlt_Qlt. lia. }
    apply Qgt_alt in Hpos. rewrite Hpos.
    change (Qcompare (inject_Z 1) 0) with Gt. exact I.
  - intros [].
Qed.

Lemma createBooking_stores_valid_row_witness :
  ∃ room, rooms sampleDB !! 1 = Some room
    ∧ (number_le (num 0) (price room) →
       number_le (number_mul (price room) (num 1)) (num 100)).
Proof.
  refine (proj2 (createBooking_stores_valid_row sampleDB
            (bookingData.mk 1 11 20 ∅) 9 3
            (mkBooking 1 9 11 20 (num 100) "pending")
            (stateAfter sampleDB
               (createBooking sampleDB (bookingData.mk 1 11 20 ∅) 9)) _)).
  reflexivity.
Defined.

(** ** Cancelling and re-labelling, step by step *)

Lemma cancelBooking_Return (now : Z) (db : DB) (id userId : Z)
    (userRole : string) (r : Booking * DB) :
  cancelBooking now db id userId userRole = Return r ↔
  ∃ b, bookings db !! id = Some b ∧ authorized b userId userRole
    ∧ now ≤ checkIn b ∧ r = Booking_update db id b "canceled".
Proof.
  unfold cancelBooking, Booking_findByPk.
  destruct (bookings db !! id) as [b|]; [|split; [done|by intros (? & ? & _)]].
  destruct (accessDenied b userId userRole) eqn:Hd.
  - split; [done|]. intros (b' & [= <-] & Hauth & _).
    apply accessDenied_false in Hauth. congruence.
  - apply accessDenied_false in Hd.
    destruct (Z.gtb_spec now (checkIn b)) as [Hgt|Hle].
    + split; [done|]. intros (b' & [= <-] & _ & Hnow & _). lia.
    + split.
      * intros [= <-]. by exists b.
      * by intros (b' & [= <-] & _ & _ & ->).
Qed.

Lemma updateBookingStatus_Return (db : DB) (id : Z) (s : string)
    (r : Booking * DB) :
  updateBookingStatus db id s = Return r ↔
  ∃ b, bookings db !! id = Some b ∧ s ∈ allowedStatuses
    ∧ r = Booking_update db id b s.
Proof.
  unfold updateBookingStatus, Booking_findByPk.
  destruct (bookings db !! id) as [b|]; [|split; [done|by intros (? & ? & _)]].
  destruct (decide (s ∈ allowedStatuses)) as [Hs|Hs].
  - rewrite bool_decide_eq_true_2 by done. simpl. split.
    + intros [= <-]. by exists b.
    + by intros (b' & [= <-] & _ & ->).
  - rewrite bool_decide_eq_false_2 by done. simpl.
    split; [done|]. by intros (b' & _ & ? & _).
Qed.

Lemma checkRoomAvailability_true (db : DB) (r ci co : Z) :
  ci < co →
  checkRoomAvailability db r ci co = Return true ↔
  ∀ id b, bookings db !! id = Some b → RoomId b = r → isActive b →
          ¬ conflicts b ci co.
Proof.
  intros Hlt. rewrite checkRoomAvailability_Return. split.
  - intros [_ Hv] id b Hb Hr Ha Hc.
    enough (true = false) by done. apply Hv. by exists id, b.
  - intros Hall. split; [done|]. split; [done|].
    intros (id & b & Hb & Hr & Ha & Hc). by destruct (Hall id b).
Qed.

(** X9: [cancelBooking] succeeds exactly when the booking exists, the caller
    is its owner or admin or manager, and the clock is not past the check-in
    date, the check-in instant itself included; the status the booking has
    plays no part, and the result is the booking with status canceled. *)
Theorem cancelBooking_succeeds_iff (now : Z) (db : DB) (id userId : Z)
    (userRole : string) (b' : Booking) (db' : DB) :
  cancelBooking now db id userId userRole = Return (b', db') ↔
  ∃ b, bookings db !! id = Some b
    ∧ (UserId b = userId ∨ userRole = "admin" ∨ userRole = "manager")
    ∧ now ≤ checkIn b
    ∧ status b' = "canceled" ∧ sameExceptStatus b b'
    ∧ rowReplaced db id b' db'.
Proof.
  rewrite cancelBooking_Return. unfold Booking_update. split.
  - intros (b & Hb & Hauth & Hnow & [= -> ->]). exists b. by repeat split.
  - intros (b & Hb & Hauth & Hnow & Hs & (Hr & Hu & Hci & Hco & Hp) & Hrooms & Hbk).
    exists b. repeat split; try done.
    destruct b', db'. simpl in *. subst. done.
Qed.

(** X10: after a successful [cancelBooking] the canceled booking no longer
    counts: a stay in any room is available exactly when no other pending or
    confirmed booking of that room conflicts with it. *)
Theorem cancelBooking_frees_the_stay (now : Z) (db : DB) (id userId : Z)
    (userRole : string) (b' : Booking) (db' : DB) (r ci co : Z) :
  cancelBooking now db id userId userRole = Return (b', db') →
  ci < co →
  (checkRoomAvailability db' r ci co = Return true ↔
   ∀ j bj, j ≠ id → bookings db !! j = Some bj → RoomId bj = r →
           isActive bj → ¬ conflicts bj ci co).
Proof.
  intros Hcancel Hlt.
  apply cancelBooking_Return in Hcancel as (b & Hb & _ & _ & [= -> ->]).
  rewrite checkRoomAvailability_true by done. simpl. split.
  - intros Hall j bj Hj Hbj. apply (Hall j). by rewrite lookup_insert_ne.
  - intros Hall j bj Hbj Hr Ha.
    apply lookup_insert_Some in Hbj as [[<- <-]|[Hj Hbj]].
    + by destruct Ha.
    + by apply (Hall j).
Qed.

Lemma cancelBooking_frees_the_stay_witness :
  checkRoomAvailability
    (stateAfter sampleDB (cancelBooking (-5) sampleDB 1 7 "guest")) 1 0 10
  = Return true.
Proof.
  apply (cancelBooking_frees_the_stay (-5) sampleDB 1 7 "guest"
           (mkBooking 1 7 0 10 (num 1000) "canceled")
           (stateAfter sampleDB (cancelBooking (-5) sampleDB 1 7 "guest"))
           1 0 10); [reflexivity | lia |].
  intros j bj Hj Hbj _ Ha. simpl in Hbj.
  apply lookup_insert_Some in Hbj as [[<- _]|[_ Hbj]]; [done|].
  apply lookup_singleton_Some in Hbj as [_ <-]. by destruct Ha.
Defined.

(** X11: cancelling a booking again, by any authorized caller and at any
    moment up to its check-in, succeeds and changes nothing: it returns the
    same booking and the same database as the first cancellation. *)
Theorem cancelBooking_again_is_noop (now : Z) (db : DB) (id userId : Z)
    (userRole : string) (b' : Booking) (db' : DB)
    (now' userId' : Z) (userRole' : string) :
  cancelBooking now db id userId userRole = Return (b', db') →
  now' ≤ checkIn b' →
  UserId b' = userId' ∨ userRole' = "admin" ∨ userRole' = "manager" →
  cancelBooking now' db' id userId' userRole' = Return (b', db').
Proof.
  intros Hcancel Hnow' Hauth'.
  apply cancelBooking_Return in Hcancel as (b & Hb & _ & _ & [= -> ->]).
  apply cancelBooking_Return. exists (setStatus "canceled" b).
  simpl. rewrite lookup_insert_eq. split; [done|]. split; [done|].
  split; [done|]. unfold Booking_update. simpl. by rewrite insert_insert_eq.
Qed.

Lemma cancelBooking_again_is_noop_witness :
  cancelBooking 0 (stateAfter sampleDB (cancelBooking (-5) sampleDB 1 7 "guest"))
    1 8 "admin"
  = Return (mkBooking 1 7 0 10 (num 1000) "canceled",
            stateAfter sampleDB (cancelBooking (-5) sampleDB 1 7 "guest")).
Proof.
  apply (cancelBooking_again_is_noop (-5) sampleDB 1 7 "guest");
    [reflexivity | simpl; lia | right; by left].
Defined.

(** X12: the last status written wins: after a successful
    [updateBookingStatus], a second one on the same booking returns what it
    would have returned without the first. *)
Theorem updateBookingStatus_last_write_wins (db : DB) (id : Z) (s1 s2 : string)
    (b1 : Booking) (db1 : DB) :
  updateBookingStatus db id s1 = Return (b1, db1) →
  updateBookingStatus db1 id s2 = updateBookingStatus db id s2.
Proof.
  intros Hfirst.
  apply updateBookingStatus_Return in Hfirst as (b & Hb & _ & [= -> ->]).
  unfold updateBookingStatus, Booking_findByPk. simpl.
  rewrite lookup_insert_eq, Hb. destruct (negb _); [done|].
  unfold Booking_update. simpl. by rewrite insert_insert_eq.
Qed.

Lemma updateBookingStatus_last_write_wins_witness :
  updateBookingStatus
    (stateAfter sampleDB (updateBookingStatus sampleDB 1 "confirmed"))
    1 "completed"
  = updateBookingStatus sampleDB 1 "completed".
Proof.
  apply (updateBookingStatus_last_write_wins sampleDB 1 "confirmed" "completed"
           (mkBooking 1 7 0 10 (num 1000) "confirmed")).
  reflexivity.
Defined.

(** X13: whatever [cancelBooking] returns, [updateBookingStatus] with status
    canceled returns on the same database: cancelling is that status update
    behind the access test and the date test. *)
Theorem cancelBooking_is_guarded_update (now : Z) (db : DB) (id userId : Z)
    (userRole : string) (r : Booking * DB) :
  cancelBooking now db id userId userRole = Return r →
  updateBookingStatus db id "canceled" = Return r.
Proof.
  intros Hcancel.
  apply cancelBooking_Return in Hcancel as (b & Hb & _ & _ & ->).
  apply updateBookingStatus_Return. exists b. split; [done|]. split; [|done].
  unfold allowedStatuses. set_solver.
Qed.

Lemma cancelBooking_is_guarded_update_witness :
  updateBookingStatus sampleDB 1 "canceled"
  = cancelBooking (-5) sampleDB 1 7 "guest".
Proof.
  apply (cancelBooking_is_guarded_update (-5) sampleDB 1 7 "guest").
  reflexivity.
Defined.

(** ** What every execution keeps *)

Lemma sameExceptStatus_trans (b1 b2 b3 : Booking) :
  sameExceptStatus b1 b2 → sameExceptStatus b2 b3 → sameExceptStatus b1 b3.
Proof. unfold sameExceptStatus. intuition congruence. Qed.

Lemma sameExceptStatus_refl (b : Booking) : sameExceptStatus b b.
Proof. by repeat split. Qed.

Lemma Booking_update_frame (db : DB) (id : Z) (b : Booking) (s : string) :
  bookings db !! id = Some b →
  rooms (Booking_update db id b s).2 = rooms db
  ∧ ∀ j bj, bookings db !! j = Some bj →
      ∃ bj', bookings (Booking_update db id b s).2 !! j = Some bj'
             ∧ sameExceptStatus bj bj'.
Proof.
  intros Hb. split; [done|]. intros j bj Hbj. simpl.
  destruct (decide (id = j)) as [<-|Hne].
  - rewrite lookup_insert_eq. exists (setStatus s b). split; [done|].
    assert (bj = b) as -> by congruence. by repeat split.
  - rewrite lookup_insert_ne by done. exists bj.
    split; [done|apply sameExceptStatus_refl].
Qed.

Lemma exec_frame (db : DB) (c : call) :
  rooms (exec db c) = rooms db
  ∧ ∀ j bj, bookings db !! j = Some bj →
      ∃ bj', bookings (exec db c) !! j = Some bj' ∧ sameExceptStatus bj bj'.
Proof.
  assert (Hsame : rooms db = rooms db
    ∧ ∀ j bj, bookings db !! j = Some bj →
        ∃ bj', bookings db !! j = Some bj' ∧ sameExceptStatus bj bj').
  { split; [done|]. intros j bj Hbj. exists bj.
    split; [done|apply sameExceptStatus_refl]. }
  destruct c as [data userId|now id userId userRole|id s]; simpl.
  - destruct (createBooking db data userId) as [[[id b] db']|e] eqn:Hc;
      [|done].
    apply createBooking_Return in Hc as (room & _ & _ & -> & -> & ->).
    simpl. split; [done|]. intros j bj Hbj. exists bj.
    split; [|apply sameExceptStatus_refl].
    rewrite lookup_insert_ne; [done|].
    intros <-. pose proof (lastId_fresh (bookings db)). congruence.
  - destruct (cancelBooking now db id userId userRole) as [[b' db']|e] eqn:Hc;
      [|done].
    apply cancelBooking_Return in Hc as (b & Hb & _ & _ & Hr).
    simpl. replace db' with (Booking_update db id b "canceled").2
      by (by rewrite <- Hr).
    by apply Booking_update_frame.
  - destruct (updateBookingStatus db id s) as [[b' db']|e] eqn:Hc; [|done].
    apply updateBookingStatus_Return in Hc as (b & Hb & _ & Hr).
    simpl. replace db' with (Booking_update db id b s).2 by (by rewrite <- Hr).
    by apply Booking_update_frame.
Qed.

(** X14: no execution of [createBooking], [cancelBooking] and
    [updateBookingStatus] deletes a booking or changes its room, owner, dates
    or price, and none changes the Rooms table: a booking that is in the
    table stays there, and only its status may differ afterwards. *)
Theorem run_keeps_every_booking (calls : list call) (db : DB) :
  rooms (run db calls) = rooms db
  ∧ ∀ id b, bookings db !! id = Some b →
      ∃ b', bookings (run db calls) !! id = Some b' ∧ sameExceptStatus b b'.
Proof.
  revert db. induction calls as [|c calls IH]; intros db; simpl.
  - split; [done|]. intros id b Hb. exists b.
    split; [done|apply sameExceptStatus_refl].
  - destruct (exec_frame db c) as [Hrooms Hstep].
    destruct (IH (exec db c)) as [Hrooms' Hrest].
    split; [congruence|]. intros id b Hb.
    destruct (Hstep id b Hb) as (b1 & Hb1 & Hs1).
    destruct (Hrest id b1 Hb1) as (b2 & Hb2 & Hs2).
    exists b2. eauto using sameExceptStatus_trans.
Qed.

Lemma exec_wellFormed (db : DB) (c : call) :
  wellFormed db → wellFormed (exec db c).
Proof.
  intros Hwf.
  assert (Hupd : ∀ id b s, bookings db !! id = Some b → s ∈ allowedStatuses →
            wellFormed (Booking_update db id b s).2).
  { intros id b s Hb Hs j bj Hbj. simpl in Hbj |- *.
    apply lookup_insert_Some in Hbj as [[<- <-]|[_ Hbj]]; [|by apply (Hwf j)].
    destruct (Hwf id b Hb) as (? & ? & _). by repeat split. }
  destruct c as [data userId|now id userId userRole|id s]; simpl.
  - destruct (createBooking db data userId) as [[[id b] db']|e] eqn:Hc;
      [|done].
    apply createBooking_Return in Hc as (room & Hroom & Hav & -> & -> & ->).
    apply checkRoomAvailability_Return in Hav as [Hlt _].
    intros j bj Hbj. simpl in Hbj |- *.
    apply lookup_insert_Some in Hbj as [[_ <-]|[_ Hbj]]; [|by apply (Hwf j)].
    simpl. split; [done|]. split; [by rewrite Hroom|].
    unfold allowedStatuses. set_solver.
  - destruct (cancelBooking now db id userId userRole) as [[b' db']|e] eqn:Hc;
      [|done].
    apply cancelBooking_Return in Hc as (b & Hb & _ & _ & Hr).
    simpl. replace db' with (Booking_update db id b "canceled").2
      by (by rewrite <- Hr).
    apply Hupd; [done|]. unfold allowedStatuses. set_solver.
  - destruct (updateBookingStatus db id s) as [[b' db']|e] eqn:Hc; [|done].
    apply updateBookingStatus_Return in Hc as (b & Hb & Hs & Hr).
    simpl. replace db' with (Booking_update db id b s).2 by (by rewrite <- Hr).
    by apply Hupd.
Qed.

Lemma sampleDB_wellFormed : wellFormed sampleDB.
Proof.
  intros id b Hb. simpl in Hb.
  apply lookup_insert_Some in Hb as [[_ <-]|[_ Hb]].
  - simpl. split; [lia|]. split; [by eexists|].
    unfold allowedStatuses. set_solver.
  - apply lookup_singleton_Some in Hb as [_ <-].
    simpl. split; [lia|]. split; [by eexists|].
    unfold allowedStatuses. set_solver.
Qed.

(** X15: when every booking of the table checks out after it checks in,
    refers to an existing room and has one of the four statuses, the same
    holds after every execution of [createBooking], [cancelBooking] and
    [updateBookingStatus]. *)
Theorem run_keeps_wellFormed (calls : list call) (db : DB) :
  wellFormed db → wellFormed (run db calls).
Proof.
  revert db. induction calls as [|c calls IH]; intros db Hwf; [done|].
  simpl. by apply IH, exec_wellFormed.
Qed.

Lemma run_keeps_wellFormed_witness :
  wellFormed
    (run sampleDB [CreateBooking (bookingData.mk 1 11 20 ∅) 9;
                   UpdateBookingStatus 2 "confirmed";
                   CancelBooking (-5) 1 7 "guest"]).
Proof.
  apply run_keeps_wellFormed, sampleDB_wellFormed.
Defined.

(** X16: creating a booking for one room leaves the availability of every
    other room as it was. *)
Theorem createBooking_leaves_other_rooms (db : DB) (data : bookingData.t)
    (userId id : Z) (b : Booking) (db' : DB) (r ci co : Z) :
  createBooking db data userId = Return (id, b, db') →
  r ≠ bookingData.roomId data →
  checkRoomAvailability db' r ci co = checkRoomAvailability db r ci co.
Proof.
  intros Hcreate Hr.
  apply createBooking_Return in Hcreate as (room & _ & _ & -> & -> & ->).
  destruct (checkRoomAvailability db r ci co) as [v|e] eqn:Hdb.
  - apply checkRoomAvailability_Return in Hdb as [Hlt Hv].
    apply checkRoomAvailability_Return. split; [done|]. rewrite Hv. simpl.
    split; intros (j & bj & Hbj & Hrj & Hrest); exists j, bj.
    + split; [|done]. rewrite lookup_insert_ne; [done|].
      intros <-. pose proof (lastId_fresh (bookings db)). congruence.
    + split; [|done].
      apply lookup_insert_Some in Hbj as [[_ <-]|[_ Hbj]]; [|done].
      simpl in Hrj. congruence.
  - unfold checkRoomAvailability in *.
    destruct (ci >=? co); [done|discriminate].
Qed.

Lemma createBooking_leaves_other_rooms_witness :
  checkRoomAvailability
    (stateAfter sampleDB (createBooking sampleDB (bookingData.mk 1 11 20 ∅) 9))
    2 11 20
  = checkRoomAvailability sampleDB 2 11 20.
Proof.
  apply (createBooking_leaves_other_rooms sampleDB (bookingData.mk 1 11 20 ∅)
           9 3 (mkBooking 1 9 11 20 (num 100) "pending"));
    [reflexivity | done].
Defined.

(** ** More on the price *)

(** X17: a stay of [n] whole days costs the price times [n], whatever the
    hour it starts at, and a stay of [n] whole days and a started one costs
    the price times [n + 1], as a multiplication of doubles, as long as the
    length of the stay in milliseconds is a safe integer; [n] is any integer,
    so a stay of no length costs the price times 0 and one that ends [n] days
    before it starts the price times [-n]. *)
Theorem calculateTotalPrice_by_days (pricePerNight : number) (ci n extra : Z) :
  (safeInteger (n * Z.pos msPerDay) →
   calculateTotalPrice pricePerNight ci (ci + n * Z.pos msPerDay)
     = number_mul pricePerNight (num n))
  ∧ (0 < extra ≤ Z.pos msPerDay →
     safeInteger (n * Z.pos msPerDay + extra) →
     calculateTotalPrice pricePerNight ci (ci + n * Z.pos msPerDay + extra)
       = number_mul pricePerNight (num (n + 1))).
Proof.
  split.
  - intros Hsafe.
    replace (ci + n * Z.pos msPerDay - ci) with (n * Z.pos msPerDay) in *
      by lia.
    rewrite calculateTotalPrice_safe
      by (by replace (ci + n * Z.pos msPerDay - ci) with (n * Z.pos msPerDay)
            by lia).
    do 2 f_equal.
    replace (- (ci + n * Z.pos msPerDay - ci)) with ((- n) * Z.pos msPerDay)
      by lia.
    rewrite Z.div_mul by done. lia.
  - intros Hextra Hsafe.
    rewrite calculateTotalPrice_safe
      by (by replace (ci + n * Z.pos msPerDay + extra - ci)
               with (n * Z.pos msPerDay + extra) by lia).
    do 2 f_equal.
    assert (Hq : - (ci + n * Z.pos msPerDay + extra - ci) / Z.pos msPerDay
                 = - n - 1); [|lia].
    symmetry. apply (Z.div_unique _ _ _ (Z.pos msPerDay - extra)); lia.
Qed.

Lemma calculateTotalPrice_by_days_witness :
  calculateTotalPrice (num 100) (day 2 + 17)
    (day 2 + 17 + 3 * Z.pos msPerDay + 1)
  = number_mul (num 100) (num (3 + 1)).
Proof.
  apply (proj2 (calculateTotalPrice_by_days (num 100) (day 2 + 17) 3 1));
    [done|].
  unfold safeInteger. vm_compute. reflexivity.
Defined.

(** X18: for a finite nightly price that is not negative the total never
    decreases when the check-out date moves later, and a stay whose check-out
    is not after its check-in, which the function does not refuse, costs 0 or
    less. *)
Theorem calculateTotalPrice_monotone (pricePerNight : Q) (ci co co' : Z) :
  (0 <= pricePerNight)%Q →
  (co ≤ co' →
   number_le (calculateTotalPrice (Finite pricePerNight) ci co)
     (calculateTotalPrice (Finite pricePerNight) ci co'))
  ∧ (co ≤ ci →
     number_le (calculateTotalPrice (Finite pricePerNight) ci co) (num 0)).
Proof.
  intros Hp. unfold calculateTotalPrice. split.
  - intros Hco. apply number_mul_mono; [done|].
    apply daysCount_mono. lia.
  - intros Hco.
    pose proof (daysCount_nonpos (co - ci) ltac:(lia)) as Hdays.
    set (days := Qceiling _) in *. clearbody days.
    simpl. rewrite <- round_zero. apply round_mono.
    assert (Hd : (inject_Z days <= inject_Z 0)%Q) by (by rewrite <- Zle_Qle).
    change (inject_Z 0) with 0%Q in Hd.
    set (d := inject_Z days) in *. clearbody d. nra.
Qed.

Lemma calculateTotalPrice_monotone_witness :
  number_le (calculateTotalPrice (num 100) 0 10)
    (calculateTotalPrice (num 100) 0 (day 3))
  ∧ number_le (calculateTotalPrice (num 100) 10 0) (num 0).
Proof.
  split.
  - refine (proj1 (calculateTotalPrice_monotone 100 0 10 (day 3) _) _);
      [discriminate | vm_compute; discriminate].
  - refine (proj2 (calculateTotalPrice_monotone 100 10 0 0 _) _);
      [discriminate | lia].
Defined.
